(** * The home page of the news browser (src/page.tsx)

    A shallow embedding of the [HomePage] component: its nine [useState]
    cells, the three fetchers, the refresh handler, the filter and page
    handlers, the controls of the rendered view and the image error
    handler.

    The component is asynchronous but single threaded.  Every [async]
    function runs until its next [await] and is then suspended until the
    awaited network reply is delivered.  A suspended call is kept in a
    table of pending requests together with what its continuation still
    needs: the values of the closure it was created in and the caller that
    awaits it.  One event (a handler call or the arrival of one reply) is
    one atomic step on the world. *)

From Stdlib Require Import ZArith.
From stdpp Require Import base option list strings gmap fin_maps.

(** ** Data received from the backend *)

Record Article := {
  art_id : string;
  art_title : string;
  art_summary : string;
  art_author : option string;
  art_publishDate : string;
  art_category : string;
  art_source : string;
  art_url : string;
  art_imageUrl : option string;
  art_readingTime : option Z
}.

Record Stats := {
  totalArticles : Z;
  totalSources : Z;
  activeSources : Z;
  categoryCounts : gmap string Z
}.

(** [data.pagination] and the body of a successful [/api/articles] reply. *)
Record Pagination := { pg_currentPage : Z; pg_totalPages : Z }.
Record ArticlesBody := { body_articles : list Article; body_pagination : Pagination }.

(** What one [fetch] followed by [response.json()] can produce.
    [NetworkFail]: [fetch] rejects or the body does not parse, control
    reaches the [catch] block.  [NotOk err]: [response.ok] is false and
    [err] is [data.error] ([None] when the field is absent).  [Ok data]:
    [response.ok] is true.  Bodies have the shape the backend documents
    for each route; [data.error] is a string when present.  The body of
    [/api/stats] is written to the state as it comes, so for that route
    [data] is the statistics object or [None] for a body that is [null]. *)
Inductive reply (A : Type) :=
  | NetworkFail
  | NotOk (err : option string)
  | Ok (data : A).
Arguments NetworkFail {A}.
Arguments NotOk {A} err.
Arguments Ok {A} data.

Definition failed {A} (r : reply A) : bool :=
  match r with Ok _ => false | _ => true end.

(** ** Component state: the [useState] cells of lines 27 to 35 *)

Record page_state := {
  articles : list Article;
  stats : option Stats;
  categories : list string;
  selectedCategory : string;
  loading : bool;
  refreshing : bool;
  currentPage : Z;
  totalPages : Z;
  error : string
}.

Definition initial_state : page_state :=
  {| articles := []; stats := None; categories := []; selectedCategory := "";
     loading := true; refreshing := false; currentPage := 1; totalPages := 1;
     error := "" |}.

Definition setArticles (v : list Article) (s : page_state) : page_state :=
  {| articles := v; stats := stats s; categories := categories s;
     selectedCategory := selectedCategory s; loading := loading s;
     refreshing := refreshing s; currentPage := currentPage s;
     totalPages := totalPages s; error := error s |}.

Definition setStats (v : option Stats) (s : page_state) : page_state :=
  {| articles := articles s; stats := v; categories := categories s;
     selectedCategory := selectedCategory s; loading := loading s;
     refreshing := refreshing s; currentPage := currentPage s;
     totalPages := totalPages s; error := error s |}.

Definition setCategories (v : list string) (s : page_state) : page_state :=
  {| articles := articles s; stats := stats s; categories := v;
     selectedCategory := selectedCategory s; loading := loading s;
     refreshing := refreshing s; currentPage := currentPage s;
     totalPages := totalPages s; error := error s |}.

Definition setSelectedCategory (v : string) (s : page_state) : page_state :=
  {| articles := articles s; stats := stats s; categories := categories s;
     selectedCategory := v; loading := loading s;
     refreshing := refreshing s; currentPage := currentPage s;
     totalPages := totalPages s; error := error s |}.

Definition setLoading (v : bool) (s : page_state) : page_state :=
  {| articles := articles s; stats := stats s; categories := categories s;
     selectedCategory := selectedCategory s; loading := v;
     refreshing := refreshing s; currentPage := currentPage s;
     totalPages := totalPages s; error := error s |}.

Definition setRefreshing (v : bool) (s : page_state) : page_state :=
  {| articles := articles s; stats := stats s; categories := categories s;
     selectedCategory := selectedCategory s; loading := loading s;
     refreshing := v; currentPage := currentPage s;
     totalPages := totalPages s; error := error s |}.

Definition setCurrentPage (v : Z) (s : page_state) : page_state :=
  {| articles := articles s; stats := stats s; categories := categories s;
     selectedCategory := selectedCategory s; loading := loading s;
     refreshing := refreshing s; currentPage := v;
     totalPages := totalPages s; error := error s |}.

Definition setTotalPages (v : Z) (s : page_state) : page_state :=
  {| articles := articles s; stats := stats s; categories := categories s;
     selectedCategory := selectedCategory s; loading := loading s;
     refreshing := refreshing s; currentPage := currentPage s;
     totalPages := v; error := error s |}.

Definition setError (v : string) (s : page_state) : page_state :=
  {| articles := articles s; stats := stats s; categories := categories s;
     selectedCategory := selectedCategory s; loading := loading s;
     refreshing := refreshing s; currentPage := currentPage s;
     totalPages := totalPages s; error := v |}.

(** JavaScript truthiness of a string: only the empty string is falsy. *)
Definition truthy (s : string) : bool :=
  match s with EmptyString => false | String _ _ => true end.

(** [data.error || fallback] where [data.error] is a string or absent. *)
Definition or_else (v : option string) (fallback : string) : string :=
  match v with
  | Some m => if truthy m then m else fallback
  | None => fallback
  end.

(** The listing as the view shows it: the "Laster artikler" block while
    [loading], the error banner when [error] is not empty. *)
Inductive status := Loading | Ready | Failed.

Definition status_of (s : page_state) : status :=
  if loading s then Loading else if truthy (error s) then Failed else Ready.

(** ** Requests, effects and suspended calls *)

(** The query of [/api/articles]: [page] and [limit] are always sent,
    [category] is appended only when it is truthy (lines 41 to 48).  The
    page is kept as the number it is printed from. *)
Record articles_query := {
  q_page : Z;
  q_limit : Z;
  q_category : option string
}.

Inductive request :=
  | GetArticles (q : articles_query)
  | GetStats
  | GetCategories
  | PostRefresh.

(** The three [alert] calls of [handleRefresh]; [AlertFailed] carries
    [data.error] as it is interpolated. *)
Inductive alert_msg :=
  | AlertSuccess (articlesAdded : Z)
  | AlertFailed (err : option string)
  | AlertNetwork.

Inductive effect :=
  | Fetch (rid : nat) (rq : request)
  | Alert (m : alert_msg)
  | ConsoleError (what : string).

(** A call suspended at its [await fetch(...)].  [caller] is [Some added]
    when the call is itself awaited by [handleRefresh] (lines 103, 104),
    where [added] is the [data.articlesAdded] that handler holds; it is
    [None] for a call nobody awaits.  [AwaitRefresh] keeps the
    [currentPage] and [selectedCategory] of the render whose
    [handleRefresh] was called: the body of the handler reads those
    constants, not the state cells. *)
Inductive task :=
  | AwaitArticles (caller : option Z)
  | AwaitStats (caller : option Z)
  | AwaitCategories
  | AwaitRefresh (page : Z) (category : string).

Record world := {
  st : page_state;
  pending : gmap nat task;
  next_rid : nat;
  log : list effect
}.

Definition upd (f : page_state → page_state) (w : world) : world :=
  {| st := f (st w); pending := pending w; next_rid := next_rid w; log := log w |}.

Definition emit (e : effect) (w : world) : world :=
  {| st := st w; pending := pending w; next_rid := next_rid w; log := log w ++ [e] |}.

(** Send a request and suspend the calling function on it. *)
Definition issue (rq : request) (t : task) (w : world) : world :=
  {| st := st w;
     pending := <[next_rid w := t]> (pending w);
     next_rid := S (next_rid w);
     log := log w ++ [Fetch (next_rid w) rq] |}.

(** The reply of request [rid] has been consumed. *)
Definition settle (rid : nat) (w : world) : world :=
  {| st := st w; pending := delete rid (pending w);
     next_rid := next_rid w; log := log w |}.

(** ** The fetchers *)

Definition mk_query (page : Z) (category : string) : articles_query :=
  {| q_page := page; q_limit := 12;
     q_category := if truthy category then Some category else None |}.

(** [fetchArticles] up to its [await] (lines 39 to 50). *)
Definition fetchArticles_call (caller : option Z) (page : Z) (category : string)
    (w : world) : world :=
  issue (GetArticles (mk_query page category)) (AwaitArticles caller)
        (upd (setLoading true) w).

(** The state writes of [fetchArticles] after its [await]: the [if] of
    lines 53 to 60, or the [catch] block. *)
Definition articles_outcome (r : reply ArticlesBody) (s : page_state) : page_state :=
  match r with
  | Ok data =>
      setError ""
        (setCurrentPage (pg_currentPage (body_pagination data))
          (setTotalPages (pg_totalPages (body_pagination data))
            (setArticles (body_articles data) s)))
  | NotOk err => setError (or_else err "Kunne ikke hente artikler") s
  | NetworkFail => setError "Nettverksfeil ved henting av artikler" s
  end.

(** [fetchArticles] from its [await] to its end, [finally] included. *)
Definition fetchArticles_resume (r : reply ArticlesBody) (w : world) : world :=
  let w1 := upd (articles_outcome r) w in
  let w2 := match r with
            | NetworkFail => emit (ConsoleError "Error fetching articles:") w1
            | _ => w1
            end in
  upd (setLoading false) w2.

Definition fetchStats_call (caller : option Z) (w : world) : world :=
  issue GetStats (AwaitStats caller) w.

Definition fetchStats_resume (r : reply (option Stats)) (w : world) : world :=
  match r with
  | Ok data => upd (setStats data) w
  | NotOk _ => w
  | NetworkFail => emit (ConsoleError "Error fetching stats:") w
  end.

Definition fetchCategories_call (w : world) : world :=
  issue GetCategories AwaitCategories w.

Definition fetchCategories_resume (r : reply (list string)) (w : world) : world :=
  match r with
  | Ok data => upd (setCategories data) w
  | NotOk _ => w
  | NetworkFail => emit (ConsoleError "Error fetching categories:") w
  end.

(** ** The handlers *)

(** [handleRefresh] up to its first [await] (lines 97 to 99). *)
Definition handleRefresh (w : world) : world :=
  issue PostRefresh
        (AwaitRefresh (currentPage (st w)) (selectedCategory (st w)))
        (upd (setRefreshing true) w).

(** The end of [handleRefresh]: the [finally] block. *)
Definition refresh_finally (w : world) : world := upd (setRefreshing false) w.

(** [handleRefresh] after the reply of [POST /api/refresh]. *)
Definition handleRefresh_resume (page : Z) (category : string) (r : reply Z)
    (w : world) : world :=
  match r with
  | Ok added => fetchArticles_call (Some added) page category w
  | NotOk err => refresh_finally (emit (Alert (AlertFailed err)) w)
  | NetworkFail =>
      refresh_finally
        (emit (ConsoleError "Error refreshing:") (emit (Alert AlertNetwork) w))
  end.

(** [handleRefresh] after [await fetchArticles(...)] (line 104). *)
Definition refresh_after_articles (added : Z) (w : world) : world :=
  fetchStats_call (Some added) w.

(** [handleRefresh] after [await fetchStats()] (lines 105, 113). *)
Definition refresh_after_stats (added : Z) (w : world) : world :=
  refresh_finally (emit (Alert (AlertSuccess added)) w).

Definition handleCategoryChange (category : string) (w : world) : world :=
  fetchArticles_call None 1 category
    (upd (setCurrentPage 1) (upd (setSelectedCategory category) w)).

Definition handlePageChange (page : Z) (w : world) : world :=
  fetchArticles_call None page (selectedCategory (st w))
    (upd (setCurrentPage page) w).

(** The effect of lines 181 to 185, with the default arguments of
    [fetchArticles]. *)
Definition mount (w : world) : world :=
  fetchCategories_call (fetchStats_call None (fetchArticles_call None 1 "" w)).

(** ** Events *)

Inductive call :=
  | Mount
  | CallCategoryChange (category : string)
  | CallPageChange (page : Z)
  | CallRefresh.

Inductive arrival :=
  | ArticlesReply (rid : nat) (r : reply ArticlesBody)
  | StatsReply (rid : nat) (r : reply (option Stats))
  | CategoriesReply (rid : nat) (r : reply (list string))
  | RefreshReply (rid : nat) (r : reply Z).

Definition arrival_rid (a : arrival) : nat :=
  match a with
  | ArticlesReply rid _ | StatsReply rid _
  | CategoriesReply rid _ | RefreshReply rid _ => rid
  end.

Definition invoke (c : call) (w : world) : world :=
  match c with
  | Mount => mount w
  | CallCategoryChange category => handleCategoryChange category w
  | CallPageChange page => handlePageChange page w
  | CallRefresh => handleRefresh w
  end.

(** Delivery of a reply resumes the call suspended on that request and then
    whatever awaits that call.  A reply nobody waits for, or of the wrong
    kind for its request, is dropped. *)
Definition deliver (a : arrival) (w : world) : world :=
  match a, pending w !! arrival_rid a with
  | ArticlesReply rid r, Some (AwaitArticles caller) =>
      let w1 := fetchArticles_resume r (settle rid w) in
      match caller with
      | Some added => refresh_after_articles added w1
      | None => w1
      end
  | StatsReply rid r, Some (AwaitStats caller) =>
      let w1 := fetchStats_resume r (settle rid w) in
      match caller with
      | Some added => refresh_after_stats added w1
      | None => w1
      end
  | CategoriesReply rid r, Some AwaitCategories =>
      fetchCategories_resume r (settle rid w)
  | RefreshReply rid r, Some (AwaitRefresh page category) =>
      handleRefresh_resume page category r (settle rid w)
  | _, _ => w
  end.

Inductive event :=
  | Invoke (c : call)
  | Deliver (a : arrival).

Definition step (w : world) (e : event) : world :=
  match e with
  | Invoke c => invoke c w
  | Deliver a => deliver a w
  end.

Definition run (w : world) (evs : list event) : world := foldl step w evs.

Definition blank : world :=
  {| st := initial_state; pending := ∅; next_rid := 0; log := [] |}.

(** The page right after its first render and its mount effect. *)
Definition mounted : world := mount blank.

(** ** The controls of the rendered view (lines 187 to 408)

    A click reaches a handler only through a control that is rendered and
    not disabled in the current render. *)

Inductive control :=
  | RefreshInStats
  | RefreshInEmptyList
  | CategorySelect (value : string)
  | ClearFilter
  | PrevPage
  | NextPage.

(** Pages are JavaScript numbers: doubles.  An integer up to 2^53 in
    absolute value is a double; a larger one is rounded to 53 significant
    bits, ties to even.  [num_add] and [num_sub] are [+] and [-] on integer
    doubles (the results met here are far from the overflow threshold). *)
Definition round53 (z : Z) : Z :=
  let a := Z.abs z in
  if (a <=? 2 ^ 53)%Z then z
  else
    let u := (2 ^ (Z.log2 a - 52))%Z in
    let q := (a / u)%Z in
    let r := (a mod u)%Z in
    let q' := if (u <? 2 * r)%Z || ((u =? 2 * r)%Z && Z.odd q)
              then (q + 1)%Z else q in
    (Z.sgn z * (q' * u))%Z.

Definition num_add (a b : Z) : Z := round53 (a + b).

Definition num_sub (a b : Z) : Z := round53 (a - b).

Definition has_articles (s : page_state) : bool :=
  match articles s with [] => false | _ :: _ => true end.

(** [!loading && articles.length > 0 && totalPages > 1] (line 384). *)
Definition pagination_shown (s : page_state) : bool :=
  negb (loading s) && has_articles s && (1 <? totalPages s)%Z.

Definition view_dispatch (s : page_state) (c : control) : option call :=
  match c with
  | RefreshInStats =>
      match stats s with
      | Some _ => if refreshing s then None else Some CallRefresh
      | None => None
      end
  | RefreshInEmptyList =>
      if negb (loading s) && negb (has_articles s)
      then (if refreshing s then None else Some CallRefresh)
      else None
  | CategorySelect value =>
      if bool_decide (value = "" ∨ value ∈ categories s)
      then Some (CallCategoryChange value) else None
  | ClearFilter =>
      if truthy (selectedCategory s) then Some (CallCategoryChange "") else None
  | PrevPage =>
      if pagination_shown s && negb (currentPage s =? 1)%Z
      then Some (CallPageChange (num_sub (currentPage s) 1)) else None
  | NextPage =>
      if pagination_shown s && negb (currentPage s =? totalPages s)%Z
      then Some (CallPageChange (num_add (currentPage s) 1)) else None
  end.

Inductive ui_event :=
  | Click (c : control)
  | Arrive (a : arrival).

(** A click is handled by the handler of the render that shows the current
    state: the page is rendered again between two events. *)
Definition ui_step (w : world) (e : ui_event) : world :=
  match e with
  | Click c =>
      match view_dispatch (st w) c with
      | Some h => invoke h w
      | None => w
      end
  | Arrive a => deliver a w
  end.

Definition ui_run (w : world) (evs : list ui_event) : world := foldl ui_step w evs.

(** ** The image error handler and the labels (lines 146 to 178) *)

Module Image.

#[local] Set Warnings "-register-all".

(** The part of the document the handler touches: text nodes and elements
    with their tag, class list and children. *)
Inductive node :=
  | Text (s : string)
  | Elem (tag : string) (classes : list string) (children : list node).

(** The [img] element: [dataset.fallbackAttempted] (absent until written),
    [src], [style.display] and its class list. *)
Record img := {
  fallbackAttempted : option string;
  src : string;
  display : string;
  img_classes : list string
}.

(** The image and its parent element, given by the other children of that
    parent; [None] when the image has no parent. *)
Record dom := {
  target : img;
  parent : option (list node)
}.

(** What reading a property of the literal [categoryMap] can give: one of
    its own strings, or a member inherited from [Object.prototype], which
    is the prototype object itself (for [__proto__]) or a built-in
    function. *)
Inductive js_value :=
  | JString (s : string)
  | JObjectPrototype
  | JNativeFunction (name : string).

(** The own properties of [categoryMap] (lines 147 to 157). *)
Definition categoryMap : gmap string string :=
  list_to_map
    [("helse", "Helse");
     ("alternativ_medisin", "Alternativ Medisin");
     ("politikk", "Politikk");
     ("krig", "Krig & Militær");
     ("teknologi", "Teknologi");
     ("økonomi", "Økonomi");
     ("kultur", "Kultur");
     ("medier", "Medier");
     ("klima", "Klima")].

(** The members of [Object.prototype], which every object literal
    inherits. *)
Definition object_prototype (key : string) : option js_value :=
  if String.eqb key "__proto__" then Some JObjectPrototype
  else if String.eqb key "constructor" then Some (JNativeFunction "Object")
  else if bool_decide (key ∈ ["__defineGetter__"; "__defineSetter__";
                              "hasOwnProperty"; "__lookupGetter__";
                              "__lookupSetter__"; "isPrototypeOf";
                              "propertyIsEnumerable"; "toString"; "valueOf";
                              "toLocaleString"])
       then Some (JNativeFunction key)
  else None.

(** [categoryMap[key]]: an own property first, an inherited one otherwise,
    [None] for [undefined]. *)
Definition get_property (key : string) : option js_value :=
  match categoryMap !! key with
  | Some label => Some (JString label)
  | None => object_prototype key
  end.

Definition js_truthy (v : js_value) : bool :=
  match v with
  | JString s => truthy s
  | JObjectPrototype | JNativeFunction _ => true
  end.

(** [categoryMap[category] || category] (line 158). *)
Definition getCategoryDisplayName (category : string) : js_value :=
  match get_property category with
  | Some v => if js_truthy v then v else JString category
  | None => JString category
  end.

(** What the page does not decide itself: how the engine prints a built-in
    function, and the nodes the HTML parser builds from a string assigned
    to [innerHTML]. *)
Record engine := {
  native_source : string → string;
  parse_fragment : string → list node
}.

(** A value interpolated in a template literal. *)
Definition to_text (E : engine) (v : js_value) : string :=
  match v with
  | JString s => s
  | JObjectPrototype => "[object Object]"
  | JNativeFunction name => native_source E name
  end.

Definition fallback_src : string :=
  "https://storage.googleapis.com/workspace-0f70711f-8b4e-4d94-86f1-2a93ccde5887/image/e9c2df8f-c37e-4964-b641-53c56348d05e.png))}".

(** The double quote character. *)
Definition dq : string := String (Ascii.ascii_of_nat 34) EmptyString.

(** The string assigned to [innerHTML] on line 174, for a label. *)
Definition fallback_markup (label : string) : string :=
  "<div class=" +:+ dq +:+ "text-center text-gray-400" +:+ dq +:+ ">"
  +:+ "<div class=" +:+ dq +:+ "text-lg font-medium" +:+ dq +:+ ">"
  +:+ label
  +:+ "</div><div class=" +:+ dq +:+ "text-sm" +:+ dq +:+ ">"
  +:+ "Ingen bilde tilgjengelig</div></div>".

(** The classes of [fallback.className] (line 173). *)
Definition fallback_classes : list string :=
  ["image-fallback"; "w-full"; "h-full"; "bg-gray-800"; "flex"; "items-center";
   "justify-center"; "border-2"; "border-dashed"; "border-gray-600"].

(** The [div] built on lines 172 to 174: its children are whatever the
    parser makes of the markup, label included. *)
Definition fallback_node (E : engine) (category : string) : node :=
  Elem "div" fallback_classes
    (parse_fragment E
       (fallback_markup (to_text E (getCategoryDisplayName category)))).

Definition has_class (cls : string) (n : node) : bool :=
  match n with
  | Text _ => false
  | Elem _ classes _ => bool_decide (cls ∈ classes)
  end.

(** The elements of a subtree in document order. *)
Fixpoint descendants (n : node) : list node :=
  match n with
  | Text _ => []
  | Elem _ _ children => n :: flat_map descendants children
  end.

(** [parent.querySelector('.' + cls)] for a parent whose children are the
    image followed by [others]: the first matching descendant, if any. *)
Definition querySelector (cls : string) (image : img) (others : list node)
    : option node :=
  List.find (has_class cls)
    (Elem "img" (img_classes image) [] :: flat_map descendants others).

Definition opt_truthy (v : option string) : bool :=
  match v with Some s => truthy s | None => false end.

(** The writes the handler makes to the document, in order.  Assigning
    [src] makes the browser load that image. *)
Inductive write :=
  | SetFallbackAttempted (v : string)
  | SetSrc (url : string)
  | SetDisplay (v : string)
  | AppendChild (n : node).

(** [handleImageError]: the document afterwards and the writes made. *)
Definition handleImageError (E : engine) (category : string) (d : dom)
    : dom * list write :=
  let t := target d in
  if negb (opt_truthy (fallbackAttempted t)) then
    ({| target := {| fallbackAttempted := Some "true"; src := fallback_src;
                     display := display t; img_classes := img_classes t |};
        parent := parent d |},
     [SetFallbackAttempted "true"; SetSrc fallback_src])
  else
    let t' := {| fallbackAttempted := fallbackAttempted t; src := src t;
                 display := "none"; img_classes := img_classes t |} in
    match parent d with
    | Some others =>
        match querySelector "image-fallback" t' others with
        | None =>
            ({| target := t'; parent := Some (others ++ [fallback_node E category]) |},
             [SetDisplay "none"; AppendChild (fallback_node E category)])
        | Some _ => ({| target := t'; parent := Some others |}, [SetDisplay "none"])
        end
    | None => ({| target := t'; parent := None |}, [SetDisplay "none"])
    end.

(** The stage an image is in, read off the element. *)
Inductive stage := Primary | FallbackImage | FallbackPlaceholder.

Definition stage_of (d : dom) : stage :=
  if String.eqb (display (target d)) "none" then FallbackPlaceholder
  else if opt_truthy (fallbackAttempted (target d)) then FallbackImage
  else Primary.

Definition rank (s : stage) : nat :=
  match s with Primary => 0 | FallbackImage => 1 | FallbackPlaceholder => 2 end.

(** One error event per element of [cats], each with the category the
    handler is called with: the document at the end and all the writes. *)
Fixpoint errors (E : engine) (cats : list string) (d : dom) : dom * list write :=
  match cats with
  | [] => (d, [])
  | c :: cats' =>
      let first := handleImageError E c d in
      let rest := errors E cats' first.1 in
      (rest.1, first.2 ++ rest.2)
  end.

(** The images the browser was asked to load. *)
Definition src_writes (l : list write) : list string :=
  omap (λ w, match w with SetSrc url => Some url | _ => None end) l.

(** The elements that were appended to the parent. *)
Definition appended (l : list write) : list node :=
  omap (λ w, match w with AppendChild n => Some n | _ => None end) l.

(** The image of an article card as rendered on lines 290 to 316: no
    dataset entry, shown, followed by the two badges. *)
Definition rendered (url : string) (badge time : string) : dom :=
  {| target := {| fallbackAttempted := None; src := url; display := "";
                  img_classes := ["w-full"; "h-full"; "object-cover"; "bg-gray-800"] |};
     parent := Some
       [Elem "div" ["absolute"; "top-2"; "left-2"]
          [Elem "span" ["inline-block"; "bg-red-900/80"; "text-red-300"; "text-xs";
                        "px-2"; "py-1"; "rounded-full"; "font-medium"; "backdrop-blur-sm"]
             [Text badge]];
        Elem "div" ["absolute"; "top-2"; "right-2"]
          [Elem "span" ["inline-block"; "bg-gray-900/80"; "text-gray-300"; "text-xs";
                        "px-2"; "py-1"; "rounded-full"; "backdrop-blur-sm"]
             [Text time]]] |}.

(** An engine for the examples: built-in functions print as most engines
    print them, and the parser is stood in for by one that keeps the whole
    string as text. *)
Definition sample_engine : engine :=
  {| native_source := λ name, "function " +:+ name +:+ "() { [native code] }";
     parse_fragment := λ s, [Text s] |}.

(** A hidden, marked image whose parent holds a placeholder (or that has no
    parent) is left as it is by an error event. *)
Definition settled (d : dom) : Prop :=
  opt_truthy (fallbackAttempted (target d)) = true
  ∧ display (target d) = "none"
  ∧ match parent d with
    | Some others => is_Some (querySelector "image-fallback" (target d) others)
    | None => True
    end.

End Image.

(** * Vocabulary of the statements *)

(** ** Sample data and traces *)

Definition sample_stats : Stats :=
  {| totalArticles := 40; totalSources := 6; activeSources := 5;
     categoryCounts := {[ "helse" := 25%Z; "politikk" := 15%Z ]} |}.

(** The statistics arrive, the user clicks the refresh button of the
    statistics block, and clicks it again at once. *)
Definition double_click : list ui_event :=
  [Arrive (StatsReply 1 (Ok (Some sample_stats)));
   Click RefreshInStats;
   Click RefreshInStats].

Definition sample_article (name category : string) : Article :=
  {| art_id := name; art_title := name; art_summary := ""; art_author := None;
     art_publishDate := "2025-01-01T00:00:00Z"; art_category := category;
     art_source := "kilde"; art_url := ""; art_imageUrl := None;
     art_readingTime := Some 3%Z |}.

Definition sample_body (name category : string) (page pages : Z) : ArticlesBody :=
  {| body_articles := [sample_article name category];
     body_pagination := {| pg_currentPage := page; pg_totalPages := pages |} |}.

(** The page once the first listing has arrived: one article, page 1 of 3. *)
Definition listed : world :=
  deliver (ArticlesReply 0 (Ok (sample_body "forste" "helse" 1 3))) mounted.

(** Two loads started one after the other, with nothing in between. *)
Definition two_loads (pA : Z) (cA : string) (pB : Z) (cB : string) (w : world) : world :=
  fetchArticles_call None pB cB (fetchArticles_call None pA cA w).

(** The user picks "helse" and then "politikk" before either listing has
    arrived; the reply for "politikk" arrives first, the one for "helse"
    last. *)
Definition stale_reply_trace : list event :=
  [Invoke (CallCategoryChange "helse");
   Invoke (CallCategoryChange "politikk");
   Deliver (ArticlesReply 4 (Ok (sample_body "om politikk" "politikk" 1 2)));
   Deliver (ArticlesReply 3 (Ok (sample_body "om helse" "helse" 1 5)))].

(** A page change on the listed page; request 3 fails in transit. *)
Definition second_page_requested : world := handlePageChange 2 listed.

(** ** Requests in flight *)

(** Every pending request was numbered before the next one to be sent. *)
Definition wf (w : world) : Prop :=
  ∀ rid t, pending w !! rid = Some t → rid < next_rid w.

(** [e] is the arrival of a reply to request [rid]. *)
Definition targets (e : event) (rid : nat) : bool :=
  match e with
  | Deliver a => bool_decide (arrival_rid a = rid)
  | Invoke _ => false
  end.

(** The user starts a refresh on page 1 of all categories, then picks
    "helse" and goes to page 2 while the refresh is running; the two
    listings arrive, and then the refresh is answered. *)
Definition refresh_then_filter : list event :=
  [Invoke CallRefresh;
   Invoke (CallCategoryChange "helse");
   Deliver (ArticlesReply 4 (Ok (sample_body "om helse" "helse" 1 5)));
   Invoke (CallPageChange 2);
   Deliver (ArticlesReply 5 (Ok (sample_body "mer helse" "helse" 2 5)))].

(** ** The listing and the auxiliary replies *)

(** What the listing area is drawn from. *)
Definition listing (s : page_state) : list Article * bool * string * Z * Z :=
  (articles s, loading s, error s, currentPage s, totalPages s).

Definition aux_arrival (a : arrival) : bool :=
  match a with
  | StatsReply _ _ | CategoriesReply _ _ => true
  | _ => false
  end.

Definition aux_failure (a : arrival) : bool :=
  match a with
  | StatsReply _ r => failed r
  | CategoriesReply _ r => failed r
  | _ => false
  end.

Definition aux_event (e : event) : bool :=
  match e with Deliver a => aux_arrival a | Invoke _ => false end.

(** ** Running refreshes *)

(** The suspended calls that belong to a running [handleRefresh]: the
    handler itself, or the fetcher it currently awaits. *)
Definition refresh_task (t : task) : bool :=
  match t with
  | AwaitRefresh _ _ | AwaitArticles (Some _) | AwaitStats (Some _) => true
  | _ => false
  end.

Definition is_post (e : effect) : bool :=
  match e with Fetch _ PostRefresh => true | _ => false end.

Definition is_alert (e : effect) : bool :=
  match e with Alert _ => true | _ => false end.

Definition count (f : effect → bool) (l : list effect) : nat :=
  length (List.filter f l).

(** Every [handleRefresh] ends with exactly one alert, so the refreshes
    still running are the POSTs sent minus the alerts shown. *)
Definition refreshes_running (w : world) : nat :=
  count is_post (log w) - count is_alert (log w).

(** [r] is the one pending request that belongs to a refresh. *)
Definition sole (m : gmap nat task) (r : nat) : Prop :=
  (∃ t, m !! r = Some t ∧ refresh_task t = true)
  ∧ ∀ r' t', m !! r' = Some t' → refresh_task t' = true → r' = r.

Definition none_refresh (m : gmap nat task) : Prop :=
  ∀ r t, m !! r = Some t → refresh_task t = false.

(** The flag [refreshing] tells whether a refresh is running, there is at
    most one, and the log agrees. *)
Record refresh_inv (w : world) : Prop := {
  inv_wf : wf w;
  inv_tasks :
    if refreshing (st w) then ∃ r, sole (pending w) r else none_refresh (pending w);
  inv_log :
    count is_post (log w)
    = count is_alert (log w) + (if refreshing (st w) then 1 else 0)
}.

(** [handleRefresh] called twice on the listed page, the second time before
    the first POST is answered. *)
Definition double_refresh : list event := [Invoke CallRefresh; Invoke CallRefresh].

(** ** Logs, outcomes and kinds of replies *)

(** The requests of a log, in the order they were sent. *)
Definition sent (l : list effect) : list request :=
  omap (λ e, match e with Fetch _ rq => Some rq | _ => None end) l.

(** The alerts of a log, in the order they were shown. *)
Definition alerts (l : list effect) : list alert_msg :=
  omap (λ e, match e with Alert m => Some m | _ => None end) l.

(** What a request for articles always looks like: twelve per page, and a
    category parameter only when there is a category. *)
Definition well_formed_request (rq : request) : Prop :=
  match rq with
  | GetArticles q =>
      q_limit q = 12%Z ∧ ∀ c, q_category q = Some c → truthy c = true
  | _ => True
  end.

(** The state write of [fetchStats] after its reply (lines 74 to 76). *)
Definition stats_outcome (r : reply (option Stats)) (s : page_state) : page_state :=
  match r with Ok data => setStats data s | _ => s end.

(** The state write of [fetchCategories] after its reply (lines 87 to 89). *)
Definition categories_outcome (r : reply (list string)) (s : page_state) : page_state :=
  match r with Ok data => setCategories data s | _ => s end.

(** Replies to the same route. *)
Definition same_kind (a b : arrival) : bool :=
  match a, b with
  | ArticlesReply _ _, ArticlesReply _ _
  | StatsReply _ _, StatsReply _ _
  | CategoriesReply _ _, CategoriesReply _ _
  | RefreshReply _ _, RefreshReply _ _ => true
  | _, _ => false
  end.

(** The reply [a] is of the kind the suspended call [t] waits for. *)
Definition resumes (a : arrival) (t : task) : bool :=
  match a, t with
  | ArticlesReply _ _, AwaitArticles _
  | StatsReply _ _, AwaitStats _
  | CategoriesReply _ _, AwaitCategories
  | RefreshReply _ _, AwaitRefresh _ _ => true
  | _, _ => false
  end.

(** What the call resumed by [a] writes to the state, what it and its
    caller do to [refreshing] included. *)
Definition writes (a : arrival) (t : task) (s : page_state) : page_state :=
  match a, t with
  | ArticlesReply _ r, AwaitArticles _ => setLoading false (articles_outcome r s)
  | StatsReply _ r, AwaitStats (Some _) => setRefreshing false (stats_outcome r s)
  | StatsReply _ r, AwaitStats None => stats_outcome r s
  | CategoriesReply _ r, AwaitCategories => categories_outcome r s
  | RefreshReply _ (Ok _), AwaitRefresh _ _ => setLoading true s
  | RefreshReply _ _, AwaitRefresh _ _ => setRefreshing false s
  | _, _ => s
  end.

(** The call, if any, that is suspended next when [a] has been handled. *)
Definition spawns (a : arrival) (t : task) : option task :=
  match a, t with
  | ArticlesReply _ _, AwaitArticles (Some added) => Some (AwaitStats (Some added))
  | RefreshReply _ (Ok added), AwaitRefresh _ _ => Some (AwaitArticles (Some added))
  | _, _ => None
  end.



Definition is_category_change (e : event) : bool :=
  match e with Invoke (CallCategoryChange _) => true | _ => false end.

(** A reply whose pagination, if it has one, reports a page from 1 on. *)
Definition reports_page_from_one (e : ui_event) : Prop :=
  match e with
  | Arrive (ArticlesReply _ (Ok data)) => (1 ≤ pg_currentPage (body_pagination data))%Z
  | _ => True
  end.

Definition asks_page_from_one (e : effect) : Prop :=
  match e with
  | Fetch _ (GetArticles q) => (1 ≤ q_page q)%Z
  | _ => True
  end.

(** The page is at least 1, and so is every page a running refresh holds. *)
Record page_floor (w : world) : Prop := {
  floor_page : (1 ≤ currentPage (st w))%Z;
  floor_held : ∀ rid p c, pending w !! rid = Some (AwaitRefresh p c) → (1 ≤ p)%Z;
  floor_log : Forall asks_page_from_one (log w)
}.

(** * Properties *)

(** ** Bookkeeping of requests *)

Lemma deliver_articles w rid caller r :
  pending w !! rid = Some (AwaitArticles caller) →
  deliver (ArticlesReply rid r) w =
    match caller with
    | Some added => refresh_after_articles added (fetchArticles_resume r (settle rid w))
    | None => fetchArticles_resume r (settle rid w)
    end.
Proof. intros H. unfold deliver. simpl. by rewrite H. Qed.

Lemma deliver_stats w rid caller r :
  pending w !! rid = Some (AwaitStats caller) →
  deliver (StatsReply rid r) w =
    match caller with
    | Some added => refresh_after_stats added (fetchStats_resume r (settle rid w))
    | None => fetchStats_resume r (settle rid w)
    end.
Proof. intros H. unfold deliver. simpl. by rewrite H. Qed.

Lemma deliver_categories w rid r :
  pending w !! rid = Some AwaitCategories →
  deliver (CategoriesReply rid r) w = fetchCategories_resume r (settle rid w).
Proof. intros H. unfold deliver. simpl. by rewrite H. Qed.

Lemma deliver_refresh w rid page category r :
  pending w !! rid = Some (AwaitRefresh page category) →
  deliver (RefreshReply rid r) w = handleRefresh_resume page category r (settle rid w).
Proof. intros H. unfold deliver. simpl. by rewrite H. Qed.

Lemma st_settle rid w : st (settle rid w) = st w.
Proof. done. Qed.

Lemma st_fetchArticles_resume r w :
  st (fetchArticles_resume r w) = setLoading false (articles_outcome r (st w)).
Proof. by destruct r. Qed.

Lemma st_deliver_articles w rid caller r :
  pending w !! rid = Some (AwaitArticles caller) →
  st (deliver (ArticlesReply rid r) w) = setLoading false (articles_outcome r (st w)).
Proof.
  intros H. rewrite (deliver_articles _ _ _ _ H).
  destruct caller; unfold refresh_after_articles, fetchStats_call, issue; cbn [st];
    by rewrite st_fetchArticles_resume.
Qed.

Lemma truthy_or_else v fallback : truthy fallback = true → truthy (or_else v fallback) = true.
Proof.
  intros H. destruct v as [m|]; simpl; [|done].
  by destruct (truthy m) eqn:E.
Qed.

(** ** Overlapping loads *)

(** C1, counterexample.  Request 3 is the load for "helse" and request 4 the
    later load for "politikk".  After both replies the selected category is
    "politikk" but the listing holds the article and the page count of the
    "helse" reply, not those of the "politikk" reply. *)
Lemma stale_reply_overwrites :
  let w := run listed stale_reply_trace in
  log w = log listed ++
          [Fetch 3 (GetArticles {| q_page := 1; q_limit := 12; q_category := Some "helse" |});
           Fetch 4 (GetArticles {| q_page := 1; q_limit := 12; q_category := Some "politikk" |})]
  ∧ selectedCategory (st w) = "politikk"
  ∧ articles (st w) = [sample_article "om helse" "helse"]
  ∧ totalPages (st w) = 5%Z
  ∧ articles (st w) ≠ [sample_article "om politikk" "politikk"].
Proof. vm_compute. repeat split; try reflexivity. discriminate. Qed.

(** C1, as amended.  [fetchArticles] has no guard against stale replies:
    replies are applied in the order they arrive.  When load A is started
    before load B and the reply of A arrives after the reply of B, the
    state is the one obtained by applying the outcome of B and then the
    outcome of A; a successful reply of A decides the articles, the
    pagination and the error message that remain. *)
Theorem last_arrival_wins w pA cA pB cB rA rB :
  let idA := next_rid w in
  let idB := S (next_rid w) in
  let w' := deliver (ArticlesReply idA rA)
              (deliver (ArticlesReply idB rB) (two_loads pA cA pB cB w)) in
  st w' = setLoading false (articles_outcome rA
            (setLoading false (articles_outcome rB (setLoading true (st w)))))
  ∧ (∀ dA, rA = Ok dA →
       articles (st w') = body_articles dA
       ∧ totalPages (st w') = pg_totalPages (body_pagination dA)
       ∧ currentPage (st w') = pg_currentPage (body_pagination dA)
       ∧ error (st w') = "").
Proof.
  intros idA idB w'.
  assert (HB : pending (two_loads pA cA pB cB w) !! idB = Some (AwaitArticles None)).
  { simpl. apply lookup_insert_eq. }
  assert (HA : pending (deliver (ArticlesReply idB rB) (two_loads pA cA pB cB w)) !! idA
               = Some (AwaitArticles None)).
  { rewrite (deliver_articles _ _ _ _ HB).
    assert (Hp : ∀ r v, pending (fetchArticles_resume r v) = pending v) by (by intros []).
    rewrite Hp. simpl. subst idA idB.
    rewrite lookup_delete_ne by lia. rewrite lookup_insert_ne by lia.
    apply lookup_insert_eq. }
  assert (Hst : st w' = setLoading false (articles_outcome rA
            (setLoading false (articles_outcome rB (setLoading true (st w)))))).
  { subst w'. rewrite (deliver_articles _ _ _ _ HA), st_fetchArticles_resume.
    rewrite st_settle, (deliver_articles _ _ _ _ HB), st_fetchArticles_resume.
    by rewrite st_settle. }
  split; [exact Hst|].
  intros dA ->. rewrite Hst. done.
Qed.

Lemma last_arrival_wins_witness :
  articles (st (deliver (ArticlesReply 3 (Ok (sample_body "om helse" "helse" 1 5)))
                 (deliver (ArticlesReply 4 (Ok (sample_body "om politikk" "politikk" 1 2)))
                    (two_loads 1 "helse" 1 "politikk" listed))))
  = [sample_article "om helse" "helse"].
Proof.
  destruct (last_arrival_wins listed 1 "helse" 1 "politikk"
              (Ok (sample_body "om helse" "helse" 1 5))
              (Ok (sample_body "om politikk" "politikk" 1 2))) as [_ H].
  destruct (H _ eq_refl) as [Ha _]. exact Ha.
Defined.

(** ** Outcome of one load *)

(** C3, counterexample.  The listing holds one article when the load of
    page 2 fails; afterwards the status is [Failed] and the error message
    is set, but the article is still there: the result is not cleared. *)
Lemma failed_load_keeps_articles :
  pending second_page_requested !! 3 = Some (AwaitArticles None)
  ∧ articles (st second_page_requested) = [sample_article "forste" "helse"]
  ∧ status_of (st (deliver (ArticlesReply 3 NetworkFail) second_page_requested)) = Failed
  ∧ articles (st (deliver (ArticlesReply 3 NetworkFail) second_page_requested))
    = [sample_article "forste" "helse"]
  ∧ articles (st (deliver (ArticlesReply 3 NetworkFail) second_page_requested)) ≠ [].
Proof. vm_compute. repeat split; try reflexivity. discriminate. Qed.

(** C3, as amended.  A failed load (a response that is not ok, or a
    transport error) does not clear the result.  When its reply arrives,
    loading is over, the error message is set and not empty, the status is
    [Failed], and the articles and the pagination are exactly the ones held
    at that moment: the failure branches write nothing else.  So a load
    that fails with nothing between the call of [fetchArticles] and its
    reply leaves the articles and the pagination held before the call.
    After a success the articles and the pagination are those of the
    reply, the error message is empty and the status is [Ready]. *)
Theorem load_outcome w rid caller r :
  pending w !! rid = Some (AwaitArticles caller) →
  let s' := st (deliver (ArticlesReply rid r) w) in
  match r with
  | Ok data =>
      articles s' = body_articles data
      ∧ totalPages s' = pg_totalPages (body_pagination data)
      ∧ currentPage s' = pg_currentPage (body_pagination data)
      ∧ error s' = ""
      ∧ status_of s' = Ready
  | _ =>
      articles s' = articles (st w)
      ∧ totalPages s' = totalPages (st w)
      ∧ currentPage s' = currentPage (st w)
      ∧ truthy (error s') = true
      ∧ status_of s' = Failed
  end
  ∧ (∀ w0 caller0 page category,
       failed r = true →
       let s0 := st (deliver (ArticlesReply (next_rid w0) r)
                       (fetchArticles_call caller0 page category w0)) in
       articles s0 = articles (st w0)
       ∧ totalPages s0 = totalPages (st w0)
       ∧ currentPage s0 = currentPage (st w0)
       ∧ truthy (error s0) = true
       ∧ status_of s0 = Failed).
Proof.
  intros H s'.
  assert (Hs : s' = setLoading false (articles_outcome r (st w)))
    by (by eapply st_deliver_articles).
  split.
  - rewrite Hs. destruct r as [|err|data]; simpl; repeat split; try done.
    + by apply truthy_or_else.
    + unfold status_of. simpl. by rewrite truthy_or_else.
  - intros w0 caller0 page category Hr s0.
    assert (H0 : pending (fetchArticles_call caller0 page category w0) !! next_rid w0
                 = Some (AwaitArticles caller0)) by apply lookup_insert_eq.
    subst s0. rewrite (st_deliver_articles _ _ _ r H0).
    destruct r as [|err|data]; [| |done]; simpl; repeat split; try done.
    + by apply truthy_or_else.
    + unfold status_of. simpl. by rewrite truthy_or_else.
Qed.

Lemma load_outcome_witness :
  pending second_page_requested !! 3 = Some (AwaitArticles None)
  ∧ articles (st (deliver (ArticlesReply 3 (NotOk None)) second_page_requested))
    = articles (st second_page_requested)
  ∧ articles (st (deliver (ArticlesReply 3 (NotOk None))
                    (fetchArticles_call None 2 "" listed)))
    = articles (st listed).
Proof.
  split; [reflexivity|].
  destruct (load_outcome second_page_requested 3 None (NotOk None)) as [H1 H2];
    [reflexivity|].
  split; [apply H1|].
  apply (H2 listed None 2%Z ""). reflexivity.
Defined.

(** C8.  The error message of a failed load tells the two kinds of failure
    apart.  For a response that is not ok it is the message of the server
    when there is one (a non-empty [data.error]) and "Kunne ikke hente
    artikler" when the field is absent or empty; for a transport error it
    is "Nettverksfeil ved henting av artikler". *)
Theorem load_error_message w rid caller r :
  pending w !! rid = Some (AwaitArticles caller) →
  let s' := st (deliver (ArticlesReply rid r) w) in
  (∀ m, r = NotOk (Some m) → m ≠ "" → error s' = m)
  ∧ (r = NotOk None ∨ r = NotOk (Some "") → error s' = "Kunne ikke hente artikler")
  ∧ (r = NetworkFail → error s' = "Nettverksfeil ved henting av artikler")
  ∧ "Kunne ikke hente artikler" ≠ "Nettverksfeil ved henting av artikler".
Proof.
  intros H s'.
  assert (Hs : s' = setLoading false (articles_outcome r (st w)))
    by (by eapply st_deliver_articles).
  rewrite Hs. repeat split.
  - intros m -> Hm. simpl. by destruct m.
  - by intros [-> | ->].
  - by intros ->.
  - discriminate.
Qed.

Lemma load_error_message_witness :
  pending second_page_requested !! 3 = Some (AwaitArticles None)
  ∧ error (st (deliver (ArticlesReply 3 (NotOk (Some "Ugyldig side"))) second_page_requested))
    = "Ugyldig side".
Proof.
  split; [reflexivity|].
  apply (load_error_message second_page_requested 3 None (NotOk (Some "Ugyldig side")));
    [reflexivity | reflexivity | discriminate].
Defined.

(** ** Filter and page *)

(** C5.  Whatever the state before, [handleCategoryChange c] selects [c],
    sets the page to 1 and sends exactly one request, for page 1 of
    category [c] (without the category parameter when [c] is empty, which
    stands for all categories). *)
Theorem category_change_resets_page w c :
  let w' := invoke (CallCategoryChange c) w in
  selectedCategory (st w') = c
  ∧ currentPage (st w') = 1%Z
  ∧ log w' = log w ++
      [Fetch (next_rid w)
         (GetArticles {| q_page := 1; q_limit := 12;
                         q_category := if truthy c then Some c else None |})].
Proof. done. Qed.

(** C9, counterexample.  [handlePageChange] stores the page it is given:
    after [handlePageChange 0] the current page is 0. *)
Lemma page_change_below_one :
  (1 ≤ currentPage (st listed))%Z
  ∧ currentPage (st (invoke (CallPageChange 0) listed)) = 0%Z
  ∧ ¬ (1 ≤ currentPage (st (invoke (CallPageChange 0) listed)))%Z.
Proof.
  split; [|split].
  - vm_compute. discriminate.
  - reflexivity.
  - vm_compute. intros H. by apply H.
Qed.

(** C9, as amended.  [handleCategoryChange] leaves the page at 1 for every
    argument.  [handlePageChange p] stores [p] unchecked and keeps the
    category, so afterwards the page is at least 1 exactly when [p] is. *)
Theorem page_after_handlers w c p :
  currentPage (st (invoke (CallCategoryChange c) w)) = 1%Z
  ∧ currentPage (st (invoke (CallPageChange p) w)) = p
  ∧ selectedCategory (st (invoke (CallPageChange p) w)) = selectedCategory (st w)
  ∧ ((1 ≤ currentPage (st (invoke (CallPageChange p) w)))%Z ↔ (1 ≤ p)%Z).
Proof. done. Qed.

(** Integers up to 2^53 are doubles as they are. *)
Lemma round53_exact z : (Z.abs z ≤ 2 ^ 53)%Z → round53 z = z.
Proof.
  intros H. unfold round53. by rewrite (proj2 (Z.leb_le _ _) H).
Qed.

(** Rounding does not take a number from 1 on below 1. *)
Lemma round53_from_one z : (1 ≤ z)%Z → (1 ≤ round53 z)%Z.
Proof.
  intros H. unfold round53.
  destruct (Z.abs z <=? 2 ^ 53)%Z eqn:E; [done|].
  apply Z.leb_gt in E. rewrite Z.abs_eq in * by lia.
  rewrite Z.sgn_pos by lia.
  assert (Hl : (53 ≤ Z.log2 z)%Z) by (apply Z.log2_le_pow2; lia).
  set (k := (Z.log2 z - 52)%Z).
  assert (Hu : (0 < 2 ^ k)%Z) by (apply Z.pow_pos_nonneg; lia).
  assert (Hz : (2 ^ k ≤ z)%Z).
  { etrans; [|apply (Z.log2_spec z); lia].
    apply Z.pow_le_mono_r; lia. }
  assert (Hq : (1 ≤ z / 2 ^ k)%Z) by (apply Z.div_le_lower_bound; lia).
  destruct (_ || _); nia.
Qed.

(** The two page buttons only ask for pages from 1 on: "Forrige" is
    disabled on page 1 and "Neste" adds one. *)
Lemma page_buttons_keep_floor s ctl p :
  (1 ≤ currentPage s)%Z →
  view_dispatch s ctl = Some (CallPageChange p) →
  (1 ≤ p)%Z.
Proof.
  intros Hp H. destruct ctl; simpl in H; repeat case_match; simplify_eq.
  - apply andb_prop in H0 as [_ Hne]. apply negb_true_iff in Hne.
    apply Z.eqb_neq in Hne. apply round53_from_one. lia.
  - apply round53_from_one. lia.
Qed.

(** ** Requests in flight *)

Ltac unfold_world :=
  unfold step, invoke, deliver, mount, handleRefresh, handleCategoryChange,
    handlePageChange, handleRefresh_resume, refresh_after_articles,
    refresh_after_stats, refresh_finally, fetchArticles_call,
    fetchArticles_resume, fetchStats_call, fetchStats_resume,
    fetchCategories_call, fetchCategories_resume, issue, settle, upd, emit in *;
  cbn [st pending next_rid log arrival_rid] in *.

(** Split on everything a delivery branches on. *)
Ltac split_delivery :=
  repeat match goal with
    | |- context [match pending ?w !! ?rid with _ => _ end] =>
        let E := fresh "E" in destruct (pending w !! rid) as [[[?|]|[?|]| |? ?]|] eqn:E
    | |- context [match ?r with NetworkFail => _ | NotOk _ => _ | Ok _ => _ end] =>
        is_var r; destruct r
    end;
  cbn [st pending next_rid log] in *.

Lemma wf_blank : wf blank.
Proof. intros rid t H. cbn [blank pending] in H. by rewrite lookup_empty in H. Qed.

Lemma wf_insert_next (m : gmap nat task) n t :
  (∀ rid t', m !! rid = Some t' → rid < n) →
  ∀ rid t', <[n := t]> m !! rid = Some t' → rid < S n.
Proof.
  intros H rid t' [[<- _]|[_ H']]%lookup_insert_Some; [lia|].
  apply H in H'. lia.
Qed.

Lemma wf_delete (m : gmap nat task) n r :
  (∀ rid t', m !! rid = Some t' → rid < n) →
  ∀ rid t', delete r m !! rid = Some t' → rid < n.
Proof. intros H rid t' [_ H']%lookup_delete_Some. eauto. Qed.

Lemma wf_invoke c w : wf w → wf (invoke c w).
Proof.
  unfold wf. intros H. destruct c; unfold_world; eauto using wf_insert_next.
Qed.

Lemma wf_deliver a w : wf w → wf (deliver a w).
Proof.
  unfold wf. intros H. destruct a as [rid r|rid r|rid r|rid r]; unfold_world;
    split_delivery; eauto using wf_insert_next, wf_delete.
Qed.

Lemma wf_step e w : wf w → wf (step w e).
Proof. destruct e; [apply wf_invoke | apply wf_deliver]. Qed.

Lemma wf_mounted : wf mounted.
Proof. apply (wf_invoke Mount), wf_blank. Qed.

Lemma next_rid_step e w : next_rid w ≤ next_rid (step w e).
Proof.
  destruct e as [c|a].
  - destruct c; unfold_world; lia.
  - destruct a as [rid r|rid r|rid r|rid r]; unfold_world; split_delivery; lia.
Qed.

(** A step leaves alone every pending request it is not a reply to. *)
Lemma pending_step e w rid t :
  wf w → targets e rid = false →
  pending w !! rid = Some t →
  pending (step w e) !! rid = Some t.
Proof.
  intros Hwf Ht H. pose proof (Hwf _ _ H) as Hlt.
  destruct e as [c|a].
  - destruct c; unfold_world; rewrite ?lookup_insert_ne by lia; done.
  - simpl in Ht. apply bool_decide_eq_false in Ht.
    destruct a as [rid' r|rid' r|rid' r|rid' r]; unfold_world; split_delivery;
      rewrite ?lookup_insert_ne by lia; rewrite ?lookup_delete_ne by done; done.
Qed.

Lemma pending_run evs w rid t :
  wf w → Forall (λ e, targets e rid = false) evs →
  pending w !! rid = Some t →
  wf (run w evs) ∧ pending (run w evs) !! rid = Some t.
Proof.
  revert w. induction evs as [|e evs IH]; intros w Hwf Hall H; [done|].
  apply Forall_cons in Hall as [He Hall].
  apply (IH (step w e)); auto using wf_step, pending_step.
Qed.

(** ** Refresh and the filter *)

(** C4, counterexample.  When the reply of the refresh arrives the filter
    is ("helse", page 2), but the reload that follows asks for page 1
    without a category: the filter of the moment the refresh was started. *)
Lemma refresh_reloads_old_filter :
  let w := run listed refresh_then_filter in
  let w' := deliver (RefreshReply 3 (Ok 7%Z)) w in
  (selectedCategory (st listed), currentPage (st listed)) = ("", 1%Z)
  ∧ (selectedCategory (st w), currentPage (st w)) = ("helse", 2%Z)
  ∧ log w' = log w ++
      [Fetch 6 (GetArticles {| q_page := 1; q_limit := 12; q_category := None |})]
  ∧ GetArticles {| q_page := 1; q_limit := 12; q_category := None |}
    ≠ GetArticles (mk_query (currentPage (st w)) (selectedCategory (st w))).
Proof. vm_compute. repeat split; try reflexivity. discriminate. Qed.

(** C4, as amended.  After [handleRefresh] is called in a state with page
    [p] and category [c], and whatever happens before the reply of its
    [POST /api/refresh] arrives, a successful reply makes the handler send
    exactly one request, for the articles of page [p] and category [c]:
    the filter current when the refresh was started. *)
Theorem refresh_reloads_captured_filter w evs added :
  wf w →
  Forall (λ e, targets e (next_rid w) = false) evs →
  let w1 := run (invoke CallRefresh w) evs in
  log (deliver (RefreshReply (next_rid w) (Ok added)) w1)
  = log w1 ++ [Fetch (next_rid w1)
                 (GetArticles (mk_query (currentPage (st w)) (selectedCategory (st w))))].
Proof.
  intros Hwf Hall w1.
  assert (H0 : pending (invoke CallRefresh w) !! next_rid w
               = Some (AwaitRefresh (currentPage (st w)) (selectedCategory (st w)))).
  { unfold_world. apply lookup_insert_eq. }
  destruct (pending_run evs _ _ _ (wf_invoke CallRefresh w Hwf) Hall H0) as [_ H1].
  fold w1 in H1. by rewrite (deliver_refresh _ _ _ _ _ H1).
Qed.

Lemma refresh_reloads_captured_filter_witness :
  log (deliver (RefreshReply 3 (Ok 7%Z)) (run listed refresh_then_filter))
  = log (run listed refresh_then_filter) ++
      [Fetch 6 (GetArticles {| q_page := 1; q_limit := 12; q_category := None |})].
Proof.
  apply (refresh_reloads_captured_filter listed (tail refresh_then_filter) 7%Z).
  - apply wf_deliver, wf_mounted.
  - repeat constructor.
Defined.

(** ** The auxiliary fetchers *)

Lemma aux_arrival_listing a w :
  aux_arrival a = true →
  listing (st (deliver a w)) = listing (st w)
  ∧ selectedCategory (st (deliver a w)) = selectedCategory (st w).
Proof.
  intros Ha. destruct a as [rid r|rid r|rid r|rid r]; try discriminate;
    unfold_world; split_delivery; done.
Qed.

Lemma aux_arrival_pending a w rid caller :
  aux_arrival a = true →
  pending w !! rid = Some (AwaitArticles caller) →
  pending (deliver a w) !! rid = Some (AwaitArticles caller).
Proof.
  intros Ha H. destruct a as [rid' r|rid' r|rid' r|rid' r]; try discriminate;
    unfold_world; split_delivery; try done;
    (rewrite lookup_delete_ne; [done | congruence]).
Qed.

Lemma aux_run_listing evs w :
  Forall (λ e, aux_event e = true) evs →
  listing (st (run w evs)) = listing (st w).
Proof.
  revert w. induction evs as [|e evs IH]; intros w Hall; [done|].
  apply Forall_cons in Hall as [He Hall].
  destruct e as [c|a]; [discriminate|]. simpl in He.
  change (run w (Deliver a :: evs)) with (run (deliver a w) evs).
  rewrite (IH _ Hall). by apply aux_arrival_listing.
Qed.

Lemma aux_run_pending evs w rid caller :
  Forall (λ e, aux_event e = true) evs →
  pending w !! rid = Some (AwaitArticles caller) →
  pending (run w evs) !! rid = Some (AwaitArticles caller).
Proof.
  revert w. induction evs as [|e evs IH]; intros w Hall H; [done|].
  apply Forall_cons in Hall as [He Hall].
  destruct e as [c|a]; [discriminate|]. simpl in He.
  apply (IH (deliver a w) Hall). by apply aux_arrival_pending.
Qed.

Lemma status_of_listing s s' : listing s = listing s' → status_of s = status_of s'.
Proof.
  unfold listing, status_of. intros H.
  injection H as _ Hl He _ _. by rewrite Hl, He.
Qed.

(** C7.  A failed reply to [fetchStats] or [fetchCategories] (a response
    that is not ok, or a transport error) leaves the statistics and the
    categories held before in place, writes no error message, raises no
    failure alert, and leaves everything the listing is drawn from as it
    was.  In particular, from the mounted page, when the listing is
    answered successfully among any number of auxiliary replies, failed or
    not, arriving before and after it, the listing ends [Ready] with the
    articles of the reply. *)
Theorem auxiliary_failure_isolated w a pre post body :
  aux_failure a = true →
  Forall (λ e, aux_event e = true) pre →
  Forall (λ e, aux_event e = true) post →
  let w' := deliver a w in
  let final := run mounted (pre ++ Deliver (ArticlesReply 0 (Ok body)) :: post) in
  stats (st w') = stats (st w)
  ∧ categories (st w') = categories (st w)
  ∧ listing (st w') = listing (st w)
  ∧ (∀ m, Alert m ∈ log w' → Alert m ∈ log w ∨ ∃ n, m = AlertSuccess n)
  ∧ status_of (st final) = Ready
  ∧ articles (st final) = body_articles body.
Proof.
  intros Ha Hpre Hpost w' final.
  assert (Hlocal : stats (st w') = stats (st w)
                   ∧ categories (st w') = categories (st w)
                   ∧ listing (st w') = listing (st w)
                   ∧ (∀ m, Alert m ∈ log w' → Alert m ∈ log w ∨ ∃ n, m = AlertSuccess n)).
  { subst w'. destruct a as [rid r|rid r|rid r|rid r]; try discriminate;
      destruct r; try discriminate; unfold_world; split_delivery;
      repeat split; try done; intros m Hm; auto;
      repeat (apply elem_of_app in Hm as [Hm|Hm]; auto);
      apply list_elem_of_singleton in Hm; simplify_eq; eauto. }
  destruct Hlocal as (H1 & H2 & H3 & H4).
  assert (Hp : pending (run mounted pre) !! 0 = Some (AwaitArticles None))
    by (by apply aux_run_pending).
  assert (Hfinal : listing (st final)
            = listing (setLoading false
                (articles_outcome (Ok body) (st (run mounted pre))))).
  { subst final. unfold run at 1. rewrite foldl_app. cbn [foldl step].
    fold (run mounted pre).
    fold (run (deliver (ArticlesReply 0 (Ok body)) (run mounted pre)) post).
    rewrite (aux_run_listing _ _ Hpost).
    by rewrite (st_deliver_articles _ _ _ _ Hp). }
  repeat split; try done.
  - by rewrite (status_of_listing _ _ Hfinal).
  - unfold listing in Hfinal. by injection Hfinal as ->.
Qed.

Lemma auxiliary_failure_isolated_witness :
  let final := run mounted
    [Deliver (StatsReply 1 NetworkFail);
     Deliver (ArticlesReply 0 (Ok (sample_body "forste" "helse" 1 3)));
     Deliver (CategoriesReply 2 (NotOk None))] in
  stats (st (deliver (StatsReply 1 NetworkFail) listed)) = stats (st listed)
  ∧ status_of (st final) = Ready.
Proof.
  intros final.
  pose proof (auxiliary_failure_isolated listed (StatsReply 1 NetworkFail)
                [Deliver (StatsReply 1 NetworkFail)]
                [Deliver (CategoriesReply 2 (NotOk None))]
                (sample_body "forste" "helse" 1 3)) as H.
  destruct H as (H1 & _ & _ & _ & H5 & _).
  - reflexivity.
  - repeat constructor.
  - repeat constructor.
  - split; [exact H1 | exact H5].
Defined.

(** ** One refresh at a time *)

Lemma count_snoc f l e : count f (l ++ [e]) = count f l + (if f e then 1 else 0).
Proof.
  unfold count. rewrite List.filter_app, length_app. simpl. by destruct (f e).
Qed.

Lemma sole_delete m r : sole m r → none_refresh (delete r m).
Proof.
  intros [_ H] r' t' [Hne H']%lookup_delete_Some.
  destruct (refresh_task t') eqn:E; [|done]. by destruct Hne; symmetry; eapply H.
Qed.

Lemma sole_delete_other m r r' t' :
  sole m r → m !! r' = Some t' → refresh_task t' = false → sole (delete r' m) r.
Proof.
  intros [(t & Ht & Hr) H] H' E. split.
  - exists t. split; [|done]. rewrite lookup_delete_ne; [done|]. intros ->. congruence.
  - intros r2 t2 [_ H2]%lookup_delete_Some. eauto.
Qed.

Lemma sole_insert_other m r n t :
  sole m r → m !! n = None → refresh_task t = false → sole (<[n:=t]> m) r.
Proof.
  intros [(t0 & Ht & Hr) H] Hn E. split.
  - exists t0. split; [|done]. rewrite lookup_insert_ne; [done|]. intros ->. congruence.
  - intros r2 t2 [[<- <-]|[_ H2]]%lookup_insert_Some; [congruence|eauto].
Qed.

Lemma none_refresh_delete m r : none_refresh m → none_refresh (delete r m).
Proof. intros H r' t' [_ H']%lookup_delete_Some. eauto. Qed.

Lemma none_refresh_insert m n t :
  none_refresh m → refresh_task t = false → none_refresh (<[n:=t]> m).
Proof. intros H E r' t' [[<- <-]|[_ H']]%lookup_insert_Some; eauto. Qed.

Lemma none_refresh_insert_sole m n t :
  none_refresh m → refresh_task t = true → sole (<[n:=t]> m) n.
Proof.
  intros H E. split.
  - exists t. by rewrite lookup_insert_eq.
  - intros r' t' [[<- <-]|[_ H']]%lookup_insert_Some; [done|].
    apply H in H'. congruence.
Qed.

Lemma sole_is m r rid t :
  sole m r → m !! rid = Some t → refresh_task t = true → rid = r.
Proof. intros [_ H]. apply H. Qed.

Lemma wf_fresh w : wf w → pending w !! next_rid w = None.
Proof.
  intros H. destruct (pending w !! next_rid w) eqn:E; [|done].
  apply H in E. lia.
Qed.

Lemma refresh_inv_mounted : refresh_inv mounted.
Proof.
  split; [apply wf_mounted| |reflexivity].
  cbn. intros r t H. unfold mounted in H. unfold_world.
  repeat (apply lookup_insert_Some in H as [[_ <-]|[_ H]]; [done|]).
  by rewrite lookup_empty in H.
Qed.

(** A load started outside a refresh keeps the invariant. *)
Lemma refresh_inv_load w f page category :
  refreshing (f (st w)) = refreshing (st w) →
  refresh_inv w →
  refresh_inv (fetchArticles_call None page category (upd f w)).
Proof.
  intros Hf [Hwf Ht Hl]. split.
  - unfold wf in *. unfold_world. eauto using wf_insert_next.
  - pose proof (wf_fresh _ Hwf). unfold_world.
    change (refreshing (setLoading true (f (st w)))) with (refreshing (f (st w))).
    rewrite Hf.
    destruct (refreshing (st w)).
    + destruct Ht as [r Hr]. exists r. by apply sole_insert_other.
    + by apply none_refresh_insert.
  - unfold_world.
    change (refreshing (setLoading true (f (st w)))) with (refreshing (f (st w))).
    rewrite Hf, count_snoc, count_snoc. simpl. lia.
Qed.

Lemma refresh_inv_invoke_filter w h :
  h ≠ CallRefresh → h ≠ Mount → refresh_inv w → refresh_inv (invoke h w).
Proof.
  intros H1 H2 Hinv. destruct h; try done; simpl.
  - unfold handleCategoryChange.
    change (upd (setCurrentPage 1) (upd (setSelectedCategory category) w))
      with (upd (λ s, setCurrentPage 1 (setSelectedCategory category s)) w).
    by apply refresh_inv_load.
  - unfold handlePageChange.
    change (selectedCategory (st w)) with (selectedCategory (st w)).
    by apply (refresh_inv_load w (setCurrentPage page)).
Qed.

Lemma refresh_inv_start w :
  refreshing (st w) = false → refresh_inv w → refresh_inv (handleRefresh w).
Proof.
  intros Hr [Hwf Ht Hl]. rewrite Hr in *. split.
  - unfold wf in *. unfold_world. eauto using wf_insert_next.
  - unfold_world. exists (next_rid w). by apply none_refresh_insert_sole.
  - unfold_world. rewrite !count_snoc. simpl. lia.
Qed.

Lemma refresh_task_running w rid t :
  refresh_inv w → pending w !! rid = Some t → refresh_task t = true →
  refreshing (st w) = true ∧ sole (pending w) rid.
Proof.
  intros [_ Ht _] E Hr. destruct (refreshing (st w)).
  - split; [done|]. destruct Ht as [r Hs].
    by rewrite (sole_is _ _ _ _ Hs E Hr).
  - apply Ht in E. congruence.
Qed.

Lemma refresh_inv_settle_other w rid t :
  refresh_inv w → pending w !! rid = Some t → refresh_task t = false →
  (if refreshing (st w) then ∃ r, sole (delete rid (pending w)) r
   else none_refresh (delete rid (pending w))).
Proof.
  intros [_ Ht _] E Hr. destruct (refreshing (st w)).
  - destruct Ht as [r Hs]. exists r. by eapply sole_delete_other.
  - by apply none_refresh_delete.
Qed.

(** What a delivery does is decided by the task it resumes. *)
Ltac by_task Hinv :=
  match goal with
  | E : pending ?w !! ?rid = Some ?t |- _ =>
      first
        [ destruct (refresh_task_running w rid t Hinv E eq_refl) as [Hr Hs]
        | pose proof (refresh_inv_settle_other w rid t Hinv E eq_refl) as Ho ]
  end.

Lemma refresh_inv_deliver a w : refresh_inv w → refresh_inv (deliver a w).
Proof.
  intros Hinv. pose proof Hinv as [Hwf Ht Hl].
  split; [by apply wf_deliver| |].
  - destruct a as [rid r|rid r|rid r|rid r]; unfold_world; split_delivery;
      try done; by_task Hinv; simpl; try done; rewrite ?Hr;
      first [ by apply sole_delete
            | eexists; apply none_refresh_insert_sole; [by apply sole_delete | done] ].
  - destruct a as [rid r|rid r|rid r|rid r]; unfold_world; split_delivery;
      try done; by_task Hinv; rewrite ?count_snoc; simpl;
      try rewrite Hr in Hl; try rewrite Hr; lia.
Qed.

(** Clicks reach [handleRefresh] only while no refresh is running. *)
Lemma refresh_inv_ui_step e w : refresh_inv w → refresh_inv (ui_step w e).
Proof.
  intros Hinv. destruct e as [c|a]; [|by apply refresh_inv_deliver].
  simpl. destruct (view_dispatch (st w) c) as [h|] eqn:E; [|done].
  destruct c; simpl in E; repeat case_match; simplify_eq;
    first [ by apply refresh_inv_start
          | by apply refresh_inv_invoke_filter ].
Qed.

Lemma refresh_inv_ui_run evs w : refresh_inv w → refresh_inv (ui_run w evs).
Proof.
  revert w. induction evs as [|e evs IH]; intros w H; [done|].
  apply (IH (ui_step w e)). by apply refresh_inv_ui_step.
Qed.

(** C2, counterexample.  [handleRefresh] does not look at [refreshing]: a
    second call while the first is in flight sends a second POST, and both
    are pending. *)
Lemma second_call_posts_again :
  let w1 := run listed [Invoke CallRefresh] in
  let w2 := run listed double_refresh in
  refreshing (st w1) = true
  ∧ log w2 = log listed ++ [Fetch 3 PostRefresh; Fetch 4 PostRefresh]
  ∧ pending w2 !! 3 = Some (AwaitRefresh 1 "")
  ∧ pending w2 !! 4 = Some (AwaitRefresh 1 "")
  ∧ count is_post (log w2) = 2
  ∧ invoke CallRefresh w1 ≠ w1.
Proof.
  repeat split; try reflexivity.
  intros H. apply (f_equal next_rid) in H. vm_compute in H. discriminate.
Qed.

(** C2, as amended.  [handleRefresh] itself has no guard: every call sends
    one POST.  The guard is in the view, where both refresh buttons are
    disabled while [refreshing] is set.  So in every sequence of clicks
    and arriving replies on the mounted page: [refreshing] is set exactly
    while a refresh is running; at most one is running; a click on a
    refresh button while one is running changes nothing and sends nothing;
    and the POSTs sent are one per finished refresh plus one for the
    running one. *)
Theorem refresh_clicks_coalesced evs :
  let w := ui_run mounted evs in
  refreshes_running w = (if refreshing (st w) then 1 else 0)
  ∧ count is_post (log w)
    = count is_alert (log w) + (if refreshing (st w) then 1 else 0)
  ∧ (refreshing (st w) = true →
       ui_step w (Click RefreshInStats) = w
       ∧ ui_step w (Click RefreshInEmptyList) = w)
  ∧ (∀ r1 r2 t1 t2,
       pending w !! r1 = Some t1 → refresh_task t1 = true →
       pending w !! r2 = Some t2 → refresh_task t2 = true → r1 = r2)
  ∧ (refreshing (st w) = true ↔
       ∃ r t, pending w !! r = Some t ∧ refresh_task t = true).
Proof.
  intros w. destruct (refresh_inv_ui_run evs mounted refresh_inv_mounted)
    as [Hwf Ht Hl]. fold w in Hwf, Ht, Hl.
  split; [unfold refreshes_running; lia|]. split; [done|]. split; [|split].
  - intros Hr. unfold ui_step, view_dispatch. rewrite Hr.
    split; repeat case_match; done.
  - intros r1 r2 t1 t2 H1 E1 H2 E2. destruct (refreshing (st w)).
    + destruct Ht as [r Hs].
      rewrite (sole_is _ _ _ _ Hs H1 E1). by rewrite (sole_is _ _ _ _ Hs H2 E2).
    + apply Ht in H1. congruence.
  - destruct (refreshing (st w)).
    + destruct Ht as [r [(t & H1 & H2) _]]. split; [eauto|done].
    + split; [done|]. intros (r & t & H1 & H2). apply Ht in H1. congruence.
Qed.

Lemma refresh_clicks_coalesced_witness :
  refreshing (st (ui_run mounted double_click)) = true
  ∧ count is_post (log (ui_run mounted double_click)) = 1
  ∧ ui_step (ui_run mounted double_click) (Click RefreshInStats)
    = ui_run mounted double_click.
Proof.
  destruct (refresh_clicks_coalesced double_click) as (_ & H2 & H3 & _).
  split; [reflexivity|]. split; [exact H2|].
  apply H3. reflexivity.
Defined.

(** ** The image fallback chain *)

Module ImageProps.
Import Image.

Lemma fallback_node_matches E c : has_class "image-fallback" (fallback_node E c) = true.
Proof. reflexivity. Qed.

(** Once a placeholder is among the children, [querySelector] finds one. *)
Lemma query_after_append E t others c :
  is_Some (querySelector "image-fallback" t (others ++ [fallback_node E c])).
Proof.
  destruct (querySelector _ _ _) eqn:Q; [by eexists|].
  pose proof (List.find_none _ _ Q (fallback_node E c)) as H.
  rewrite fallback_node_matches in H. discriminate H.
  right. apply in_flat_map. exists (fallback_node E c). split.
  - apply in_or_app. right. by left.
  - by left.
Qed.

(** The first error on an image not yet marked: the fallback image is
    tried, nothing else changes. *)
Lemma first_error E c d :
  opt_truthy (fallbackAttempted (target d)) = false →
  handleImageError E c d
  = ({| target := {| fallbackAttempted := Some "true"; src := fallback_src;
                     display := display (target d);
                     img_classes := img_classes (target d) |};
        parent := parent d |},
     [SetFallbackAttempted "true"; SetSrc fallback_src]).
Proof. intros H. unfold handleImageError. by rewrite H. Qed.

(** An error on an image already marked hides it and leaves [src] alone. *)
Lemma later_error E c d :
  opt_truthy (fallbackAttempted (target d)) = true →
  display (target (handleImageError E c d).1) = "none"
  ∧ fallbackAttempted (target (handleImageError E c d).1) = fallbackAttempted (target d)
  ∧ src (target (handleImageError E c d).1) = src (target d)
  ∧ src_writes (handleImageError E c d).2 = [].
Proof.
  intros H. unfold handleImageError. rewrite H. simpl.
  destruct (parent d) as [others|]; [|done].
  by destruct (querySelector _ _ _).
Qed.

Lemma settled_fixed E c d :
  settled d → handleImageError E c d = (d, [SetDisplay "none"]).
Proof.
  intros (Ha & Hd & Hp). unfold handleImageError. rewrite Ha. simpl.
  destruct d as [[fa s dp cl] [others|]]; simpl in *; subst dp; [|done].
  by destruct Hp as [n ->].
Qed.

Lemma settled_errors E cs d :
  settled d →
  (errors E cs d).1 = d
  ∧ src_writes (errors E cs d).2 = []
  ∧ appended (errors E cs d).2 = [].
Proof.
  intros H. induction cs as [|c cs IH]; [done|].
  cbn [errors]. rewrite (settled_fixed _ _ _ H). cbn [fst snd].
  destruct IH as (I1 & I2 & I3). split; [done|].
  unfold src_writes, appended in *. rewrite !omap_app, I2, I3. done.
Qed.

Lemma later_error_settled E c d :
  opt_truthy (fallbackAttempted (target d)) = true →
  settled (handleImageError E c d).1.
Proof.
  intros H. unfold settled, handleImageError. rewrite H. simpl.
  destruct (parent d) as [others|]; [|done].
  destruct (querySelector _ _ others) eqn:Q; simpl; [by rewrite Q|].
  split; [done|]. split; [done|]. apply query_after_append.
Qed.

(** What one error on a marked image appends: nothing when the image has
    no parent or the parent holds a placeholder, one placeholder
    otherwise. *)
Lemma later_error_appends E c d :
  opt_truthy (fallbackAttempted (target d)) = true →
  match parent d with
  | None =>
      parent (handleImageError E c d).1 = None
      ∧ appended (handleImageError E c d).2 = []
  | Some others =>
      match querySelector "image-fallback" (target d) others with
      | Some _ =>
          parent (handleImageError E c d).1 = Some others
          ∧ appended (handleImageError E c d).2 = []
      | None =>
          parent (handleImageError E c d).1 = Some (others ++ [fallback_node E c])
          ∧ appended (handleImageError E c d).2 = [fallback_node E c]
      end
  end.
Proof.
  intros H. unfold handleImageError. rewrite H. cbn [negb].
  destruct (parent d) as [others|]; [|done].
  change (querySelector "image-fallback" _ others)
    with (querySelector "image-fallback" (target d) others).
  by destruct (querySelector "image-fallback" (target d) others).
Qed.

Lemma stage_primary d :
  stage_of d = Primary →
  opt_truthy (fallbackAttempted (target d)) = false
  ∧ String.eqb (display (target d)) "none" = false.
Proof.
  unfold stage_of. destruct (String.eqb _ _); [done|].
  by destruct (opt_truthy _).
Qed.

(** No error event moves an image back to an earlier stage. *)
Lemma stage_monotone E c d :
  rank (stage_of d) ≤ rank (stage_of (handleImageError E c d).1).
Proof.
  destruct (opt_truthy (fallbackAttempted (target d))) eqn:Ha.
  - destruct (later_error E c d Ha) as (Hd & _).
    unfold stage_of at 2. rewrite Hd. simpl. destruct (stage_of d); simpl; lia.
  - rewrite (first_error _ _ _ Ha). unfold stage_of. simpl. rewrite Ha.
    destruct (String.eqb _ _); simpl; lia.
Qed.

Lemma stage_terminal E c d :
  stage_of d = FallbackPlaceholder →
  stage_of (handleImageError E c d).1 = FallbackPlaceholder.
Proof.
  intros H. pose proof (stage_monotone E c d) as Hm. rewrite H in Hm.
  destruct (stage_of (handleImageError E c d).1); simpl in Hm; done || lia.
Qed.

Lemma stage_terminal_errors E cs d :
  stage_of d = FallbackPlaceholder →
  stage_of (errors E cs d).1 = FallbackPlaceholder.
Proof.
  revert d. induction cs as [|c cs IH]; intros d H; [done|].
  cbn [errors fst]. apply IH. by apply stage_terminal.
Qed.

(** On a marked image no sequence of errors assigns [src]. *)
Lemma marked_no_src_write E cs d :
  opt_truthy (fallbackAttempted (target d)) = true →
  src_writes (errors E cs d).2 = []
  ∧ src (target (errors E cs d).1) = src (target d).
Proof.
  intros H. destruct cs as [|c cs]; [done|]. cbn [errors fst snd].
  destruct (settled_errors E cs _ (later_error_settled E c d H)) as (S1 & S2 & _).
  destruct (later_error E c d H) as (_ & _ & L3 & L4).
  unfold src_writes in *. rewrite omap_app, L4, S2, S1. done.
Qed.

(** Whatever the image, a sequence of errors appends at most one element. *)
Lemma appends_at_most_one E cs d : length (appended (errors E cs d).2) ≤ 1.
Proof.
  revert d. induction cs as [|c cs IH]; intros d; [simpl; lia|].
  cbn [errors snd]. unfold appended in *. rewrite omap_app, length_app.
  destruct (opt_truthy (fallbackAttempted (target d))) eqn:Ha.
  - destruct (settled_errors E cs _ (later_error_settled E c d Ha)) as (_ & _ & S3).
    unfold appended in S3. rewrite S3. simpl.
    pose proof (later_error_appends E c d Ha) as L.
    destruct (parent d) as [others|]; [destruct (querySelector _ _ _)|];
      destruct L as [_ L]; unfold appended in L; rewrite L; simpl; lia.
  - rewrite (first_error _ _ _ Ha). simpl. apply IH.
Qed.

(** C6.  An image in stage [Primary] is in [FallbackImage] after one load
    error and in [FallbackPlaceholder] after two or more, however many.
    Over all these errors the handler assigns [src] exactly once, at the
    first error and to the fixed fallback image, which is the [src] the
    image keeps: there is one fallback-image attempt and no other.  From
    any state whatever, an error event never moves an image to an earlier
    stage, and [FallbackPlaceholder] is never left. *)
Theorem fallback_chain E d cats :
  stage_of d = Primary →
  stage_of (errors E cats d).1
    = match length cats with
      | 0 => Primary
      | 1 => FallbackImage
      | _ => FallbackPlaceholder
      end
  ∧ src_writes (errors E cats d).2
    = match cats with [] => [] | _ :: _ => [fallback_src] end
  ∧ src (target (errors E cats d).1)
    = match cats with [] => src (target d) | _ :: _ => fallback_src end
  ∧ (∀ c d', rank (stage_of d') ≤ rank (stage_of (handleImageError E c d').1))
  ∧ (∀ cs d', stage_of d' = FallbackPlaceholder →
              stage_of (errors E cs d').1 = FallbackPlaceholder).
Proof.
  intros H. destruct (stage_primary d H) as [Ha Hd].
  split; [|split; [|split; [|split;
    [apply stage_monotone | apply stage_terminal_errors]]]].
  - destruct cats as [|c1 [|c2 cs]]; [done| |].
    + cbn [errors fst length]. rewrite (first_error _ _ _ Ha).
      unfold stage_of. simpl. by rewrite Hd.
    + cbn [errors fst length]. apply stage_terminal_errors.
      rewrite (first_error _ _ _ Ha). cbn [fst].
      unfold stage_of.
      by destruct (later_error E c2
           {| target := {| fallbackAttempted := Some "true"; src := fallback_src;
                           display := display (target d);
                           img_classes := img_classes (target d) |};
              parent := parent d |} eq_refl) as (-> & _).
  - destruct cats as [|c cs]; [done|]. cbn [errors snd].
    rewrite (first_error _ _ _ Ha). cbn [fst snd].
    destruct (marked_no_src_write E cs
           {| target := {| fallbackAttempted := Some "true"; src := fallback_src;
                           display := display (target d);
                           img_classes := img_classes (target d) |};
              parent := parent d |} eq_refl) as [M _].
    unfold src_writes in *. by rewrite omap_app, M.
  - destruct cats as [|c cs]; [done|]. cbn [errors fst].
    rewrite (first_error _ _ _ Ha). cbn [fst].
    by destruct (marked_no_src_write E cs
           {| target := {| fallbackAttempted := Some "true"; src := fallback_src;
                           display := display (target d);
                           img_classes := img_classes (target d) |};
              parent := parent d |} eq_refl) as [_ ->].
Qed.

Lemma fallback_chain_witness :
  stage_of (rendered "https://example.org/bilde.jpg" "Helse" "3min") = Primary
  ∧ stage_of (errors sample_engine ["helse"; "helse"; "helse"]
                (rendered "https://example.org/bilde.jpg" "Helse" "3min")).1
    = FallbackPlaceholder
  ∧ src_writes (errors sample_engine ["helse"; "helse"; "helse"]
                  (rendered "https://example.org/bilde.jpg" "Helse" "3min")).2
    = [fallback_src].
Proof.
  split; [reflexivity|].
  destruct (fallback_chain sample_engine
              (rendered "https://example.org/bilde.jpg" "Helse" "3min")
              ["helse"; "helse"; "helse"]) as (H1 & H2 & _).
  - reflexivity.
  - split; [exact H1 | exact H2].
Defined.

(** C10.  An error event on an image already marked as tried puts it in
    the placeholder stage.  It appends one placeholder to the parent when
    the parent holds no element of class [image-fallback], and nothing
    when it holds one or when there is no parent.  Any number of further
    error events, with whatever categories, then leave the image and its
    parent exactly as they are and append nothing.  So over any sequence
    of error events, from any state, at most one placeholder element is
    created. *)
Theorem placeholder_created_once E d c cs :
  opt_truthy (fallbackAttempted (target d)) = true →
  let d1 := (handleImageError E c d).1 in
  stage_of d1 = FallbackPlaceholder
  ∧ (errors E cs d1).1 = d1
  ∧ appended (errors E cs d1).2 = []
  ∧ match parent d with
    | None => parent d1 = None ∧ appended (handleImageError E c d).2 = []
    | Some others =>
        match querySelector "image-fallback" (target d) others with
        | Some _ => parent d1 = Some others ∧ appended (handleImageError E c d).2 = []
        | None =>
            parent d1 = Some (others ++ [fallback_node E c])
            ∧ appended (handleImageError E c d).2 = [fallback_node E c]
        end
    end
  ∧ (∀ cats d0, length (appended (errors E cats d0).2) ≤ 1).
Proof.
  intros H d1.
  destruct (settled_errors E cs d1 (later_error_settled E c d H)) as (S1 & _ & S3).
  split; [|split; [done|split; [done|split]]].
  - subst d1. unfold stage_of. by destruct (later_error E c d H) as (-> & _).
  - apply (later_error_appends E c d H).
  - intros cats d0. apply appends_at_most_one.
Qed.

Lemma placeholder_created_once_witness :
  let d := (handleImageError sample_engine "helse"
              (rendered "https://example.org/bilde.jpg" "Helse" "3min")).1 in
  let d1 := (handleImageError sample_engine "helse" d).1 in
  (errors sample_engine ["krig"; "klima"] d1).1 = d1
  ∧ appended (errors sample_engine ["krig"; "klima"] d1).2 = []
  ∧ appended (handleImageError sample_engine "helse" d).2
    = [fallback_node sample_engine "helse"].
Proof.
  intros d d1.
  destruct (placeholder_created_once sample_engine d "helse" ["krig"; "klima"])
    as (_ & H2 & H3 & H4 & _).
  - reflexivity.
  - split; [exact H2|]. split; [exact H3|]. apply H4.
Defined.

End ImageProps.

(** * Further properties *)

(** ** Requests and the loading flag *)

Lemma mk_query_well_formed page category :
  well_formed_request (GetArticles (mk_query page category)).
Proof.
  split; [done|]. intros c. unfold mk_query. simpl.
  destruct (truthy category) eqn:E; [|done]. by intros [= <-].
Qed.

Ltac extra_requests :=
  first
    [ by (exists []; rewrite app_nil_r)
    | rewrite <- ?app_assoc; eexists; split; [reflexivity|];
      repeat (constructor; [first [exact I | apply mk_query_well_formed]|]);
      constructor ].

Lemma step_requests e w :
  ∃ extra, log (step w e) = log w ++ extra
           ∧ Forall well_formed_request (sent extra).
Proof.
  destruct e as [c|a].
  - destruct c; unfold_world; extra_requests.
  - destruct a as [rid r|rid r|rid r|rid r]; unfold_world; split_delivery;
      extra_requests.
Qed.

(** Whatever is called and whatever arrives, every request for articles
    asks for twelve per page and carries a category parameter only when the
    category is not empty. *)
Theorem requests_well_formed evs :
  Forall well_formed_request (sent (log (run blank evs))).
Proof.
  assert (H : ∀ w, Forall well_formed_request (sent (log w)) →
                   Forall well_formed_request (sent (log (run w evs)))).
  { induction evs as [|e evs IH]; intros w Hw; [done|].
    apply (IH (step w e)).
    destruct (step_requests e w) as (extra & -> & Hx).
    unfold sent in *. rewrite omap_app. by apply Forall_app. }
  apply H. constructor.
Qed.

(** Of two loads in flight, the first reply to arrive, whichever it is,
    switches the loading indicator off although the other load is still
    pending. *)
Theorem loading_cleared_by_first_reply w pA cA pB cB r :
  let both := two_loads pA cA pB cB w in
  let idA := next_rid w in
  let idB := S (next_rid w) in
  (loading (st (deliver (ArticlesReply idA r) both)) = false
   ∧ pending (deliver (ArticlesReply idA r) both) !! idB = Some (AwaitArticles None))
  ∧ (loading (st (deliver (ArticlesReply idB r) both)) = false
     ∧ pending (deliver (ArticlesReply idB r) both) !! idA = Some (AwaitArticles None))
  ∧ loading (st both) = true.
Proof.
  intros both idA idB.
  assert (HA : pending both !! idA = Some (AwaitArticles None)).
  { subst both idA. unfold two_loads. unfold_world.
    rewrite lookup_insert_ne by lia. apply lookup_insert_eq. }
  assert (HB : pending both !! idB = Some (AwaitArticles None)).
  { subst both idB. unfold two_loads. unfold_world. apply lookup_insert_eq. }
  repeat split; try done.
  - by rewrite (st_deliver_articles _ _ _ _ HA).
  - rewrite (deliver_articles _ _ _ _ HA).
    destruct r; unfold_world; rewrite lookup_delete_ne by (subst idA idB; lia); done.
  - by rewrite (st_deliver_articles _ _ _ _ HB).
  - rewrite (deliver_articles _ _ _ _ HB).
    destruct r; unfold_world; rewrite lookup_delete_ne by (subst idA idB; lia); done.
Qed.

(** ** The course of a refresh *)


(** A refresh that fails, by a response that is not ok or in transit, shows
    one alert telling which, sends no request, and leaves every state cell
    as it was except [refreshing], which is cleared. *)
Theorem refresh_failure_untouched w rid page category r :
  pending w !! rid = Some (AwaitRefresh page category) →
  failed r = true →
  let w' := deliver (RefreshReply rid r) w in
  st w' = setRefreshing false (st w)
  ∧ sent (log w') = sent (log w)
  ∧ alerts (log w')
    = alerts (log w) ++ [match r with NotOk err => AlertFailed err | _ => AlertNetwork end]
  ∧ pending w' = delete rid (pending w).
Proof.
  intros H Hr w'. subst w'. rewrite (deliver_refresh _ _ _ _ _ H).
  destruct r as [|err|data]; [| |done]; unfold_world; unfold sent, alerts;
    rewrite ?omap_app; simpl; by rewrite ?app_nil_r.
Qed.

Lemma refresh_failure_untouched_witness :
  let w := handleRefresh listed in
  articles (st (deliver (RefreshReply 3 (NotOk (Some "opptatt"))) w)) = articles (st listed)
  ∧ alerts (log (deliver (RefreshReply 3 (NotOk (Some "opptatt"))) w))
    = [AlertFailed (Some "opptatt")].
Proof.
  intros w.
  destruct (refresh_failure_untouched w 3 1%Z "" (NotOk (Some "opptatt")))
    as (H1 & _ & H3 & _); [reflexivity | reflexivity |].
  split; [by rewrite H1 | exact H3].
Defined.






(** ** Order of arrival *)

Ltac unfold_goal :=
  unfold step, invoke, deliver, mount, handleRefresh, handleCategoryChange,
    handlePageChange, handleRefresh_resume, refresh_after_articles,
    refresh_after_stats, refresh_finally, fetchArticles_call,
    fetchArticles_resume, fetchStats_call, fetchStats_resume,
    fetchCategories_call, fetchCategories_resume, issue, settle, upd, emit;
  cbn [st pending next_rid log arrival_rid].

Lemma deliver_miss a w :
  (∀ t, pending w !! arrival_rid a = Some t → resumes a t = false) →
  deliver a w = w.
Proof.
  intros H. destruct a as [rid r|rid r|rid r|rid r]; unfold deliver;
    cbn [arrival_rid] in *; destruct (pending w !! rid) as [t|]; try done;
    specialize (H t eq_refl); by destruct t.
Qed.

Lemma deliver_old_pending x w rid :
  rid ≠ arrival_rid x → rid < next_rid w →
  pending (deliver x w) !! rid = pending w !! rid.
Proof.
  intros Hne Hlt. destruct x as [rx r|rx r|rx r|rx r]; cbn [arrival_rid] in Hne;
    unfold_goal; split_delivery;
    rewrite ?lookup_insert_ne by lia; rewrite ?lookup_delete_ne by done; done.
Qed.

Lemma deliver_settles x w :
  arrival_rid x < next_rid w →
  deliver x w = w ∨ pending (deliver x w) !! arrival_rid x = None.
Proof.
  intros Hlt. destruct x as [rx r|rx r|rx r|rx r]; cbn [arrival_rid] in *;
    unfold_goal; split_delivery;
    first [ by left
          | right; rewrite ?lookup_insert_ne by lia; apply lookup_delete_eq ].
Qed.

Lemma aux_other_pending a w rid :
  aux_arrival a = true → rid ≠ arrival_rid a →
  pending (deliver a w) !! rid = pending w !! rid.
Proof.
  intros Ha Hne. destruct a as [ra r|ra r|ra r|ra r]; try discriminate;
    cbn [arrival_rid] in Hne; unfold_goal; split_delivery;
    rewrite ?lookup_delete_ne by done; done.
Qed.

Lemma aux_settles a w :
  aux_arrival a = true →
  deliver a w = w ∨ pending (deliver a w) !! arrival_rid a = None.
Proof.
  intros Ha. destruct a as [ra r|ra r|ra r|ra r]; try discriminate;
    cbn [arrival_rid] in *; unfold_goal; split_delivery;
    first [ by left | right; apply lookup_delete_eq ].
Qed.

Lemma resumes_one_kind a b t :
  resumes a t = true → same_kind a b = false → resumes b t = false.
Proof. by destruct a, b, t. Qed.

(** A delivery that resumes a call: what it writes, and what is pending
    afterwards. *)
Lemma deliver_effect a w t :
  pending w !! arrival_rid a = Some t → resumes a t = true →
  st (deliver a w) = writes a t (st w)
  ∧ pending (deliver a w)
    = match spawns a t with
      | Some t' => <[next_rid w := t']> (delete (arrival_rid a) (pending w))
      | None => delete (arrival_rid a) (pending w)
      end.
Proof.
  intros E R. destruct a as [rid r|rid r|rid r|rid r]; cbn [arrival_rid] in E;
    destruct t as [c|c| |p k]; try discriminate; unfold deliver;
    cbn [arrival_rid]; rewrite E; unfold_goal;
    try destruct c; destruct r; done.
Qed.

Lemma aux_spawns_nothing a t : aux_arrival a = true → spawns a t = None.
Proof. by destruct a, t. Qed.

Lemma writes_commute a b ta tb s :
  aux_arrival a = true → same_kind a b = false →
  writes a ta (writes b tb s) = writes b tb (writes a ta s).
Proof.
  intros Ha Hk.
  destruct a as [ra r|ra r|ra r|ra r]; try discriminate;
    destruct b as [rb r'|rb r'|rb r'|rb r']; try discriminate;
    destruct ta as [[?|]|[?|]| |? ?]; destruct tb as [[?|]|[?|]| |? ?];
    destruct r, r'; reflexivity.
Qed.

(** A reply to [fetchStats] or [fetchCategories] and a reply to a
    different route, for a request already sent, may arrive in either
    order: the state and the pending requests come out the same.  Two
    replies to the same route are not covered, and need not commute. *)
Theorem auxiliary_replies_commute w a b :
  aux_arrival a = true →
  same_kind a b = false →
  arrival_rid a < next_rid w →
  st (deliver a (deliver b w)) = st (deliver b (deliver a w))
  ∧ pending (deliver a (deliver b w)) = pending (deliver b (deliver a w)).
Proof.
  intros Ha Hk Hlt.
  assert (Hk' : same_kind b a = false) by (by destruct a, b).
  destruct (decide (arrival_rid a = arrival_rid b)) as [Heq|Hne].
  - destruct (pending w !! arrival_rid a) as [t|] eqn:E.
    + destruct (resumes a t) eqn:Ra.
      * assert (Hb : deliver b w = w).
        { apply deliver_miss. rewrite <- Heq, E. intros ? [= <-].
          by eapply resumes_one_kind. }
        rewrite Hb. destruct (aux_settles a w Ha) as [->|Hs]; [by rewrite Hb|].
        rewrite (deliver_miss b (deliver a w)); [done|].
        rewrite <- Heq, Hs. done.
      * assert (Hm : deliver a w = w).
        { apply deliver_miss. rewrite E. by intros ? [= <-]. }
        rewrite Hm. rewrite Heq in Hlt.
        destruct (deliver_settles b w Hlt) as [->|Hs]; [by rewrite Hm|].
        rewrite (deliver_miss a (deliver b w)); [done|].
        rewrite Heq, Hs. done.
    + rewrite (deliver_miss a w) by (rewrite E; done).
      rewrite (deliver_miss b w) by (rewrite <- Heq, E; done).
      by rewrite (deliver_miss a w) by (rewrite E; done).
  - assert (Hba : pending (deliver b w) !! arrival_rid a = pending w !! arrival_rid a)
      by (by apply deliver_old_pending).
    assert (Hab : pending (deliver a w) !! arrival_rid b = pending w !! arrival_rid b)
      by (apply aux_other_pending; [done | congruence]).
    destruct (pending w !! arrival_rid a) as [ta|] eqn:Ea;
      [destruct (resumes a ta) eqn:Ra|].
    2: { rewrite (deliver_miss a w) by (rewrite Ea; by intros ? [= <-]).
         by rewrite (deliver_miss a (deliver b w)) by (rewrite Hba; by intros ? [= <-]). }
    2: { rewrite (deliver_miss a w) by (rewrite Ea; done).
         by rewrite (deliver_miss a (deliver b w)) by (rewrite Hba; done). }
    destruct (pending w !! arrival_rid b) as [tb|] eqn:Eb;
      [destruct (resumes b tb) eqn:Rb|].
    2: { rewrite (deliver_miss b w) by (rewrite Eb; by intros ? [= <-]).
         by rewrite (deliver_miss b (deliver a w)) by (rewrite Hab; by intros ? [= <-]). }
    2: { rewrite (deliver_miss b w) by (rewrite Eb; done).
         by rewrite (deliver_miss b (deliver a w)) by (rewrite Hab; done). }
    destruct (deliver_effect a w ta Ea Ra) as [Sa Pa].
    destruct (deliver_effect b w tb Eb Rb) as [Sb Pb].
    destruct (deliver_effect a (deliver b w) ta Hba Ra) as [Sab Pab].
    destruct (deliver_effect b (deliver a w) tb Hab Rb) as [Sba Pba].
    rewrite (aux_spawns_nothing a ta Ha) in Pa, Pab.
    assert (Hn : next_rid (deliver a w) = next_rid w).
    { clear -Ha. destruct a as [ra r|ra r|ra r|ra r]; try discriminate;
        unfold_goal; split_delivery; done. }
    split.
    + rewrite Sab, Sb, Sba, Sa. by apply writes_commute.
    + rewrite Pab, Pb, Pba, Pa, Hn. destruct (spawns b tb).
      * rewrite delete_insert_ne by lia. by rewrite delete_delete.
      * apply delete_delete.
Qed.

Lemma auxiliary_replies_commute_witness :
  st (deliver (StatsReply 1 (Ok (Some sample_stats)))
        (deliver (ArticlesReply 0 (Ok (sample_body "forste" "helse" 1 3))) mounted))
  = st (deliver (ArticlesReply 0 (Ok (sample_body "forste" "helse" 1 3)))
          (deliver (StatsReply 1 (Ok (Some sample_stats))) mounted)).
Proof.
  destruct (auxiliary_replies_commute mounted (StatsReply 1 (Ok (Some sample_stats)))
              (ArticlesReply 0 (Ok (sample_body "forste" "helse" 1 3)))) as [H _].
  - reflexivity.
  - reflexivity.
  - vm_compute. lia.
  - exact H.
Defined.

(** The three requests of the mount effect may be answered in any order:
    the state they leave is the same, each reply having written its own
    cells, and nothing is left pending. *)
Theorem initial_load_order_independent evs rA rS rC :
  evs ≡ₚ [Deliver (ArticlesReply 0 rA); Deliver (StatsReply 1 rS);
          Deliver (CategoriesReply 2 rC)] →
  st (run mounted evs)
  = categories_outcome rC (stats_outcome rS
      (setLoading false (articles_outcome rA initial_state)))
  ∧ pending (run mounted evs) = ∅.
Proof.
  intros H. symmetry in H. apply permutations_Permutation in H.
  cbv [permutations interleave mbind list_bind mret list_ret fmap list_fmap app] in H.
  repeat (apply elem_of_cons in H as [->|H]);
    [..|by apply elem_of_nil in H];
    destruct rA, rS, rC; split; reflexivity.
Qed.

Lemma initial_load_order_independent_witness :
  stats (st (run mounted
    [Deliver (CategoriesReply 2 (Ok ["helse"; "politikk"]));
     Deliver (StatsReply 1 (Ok (Some sample_stats)));
     Deliver (ArticlesReply 0 NetworkFail)])) = Some sample_stats.
Proof.
  destruct (initial_load_order_independent
              [Deliver (CategoriesReply 2 (Ok ["helse"; "politikk"]));
               Deliver (StatsReply 1 (Ok (Some sample_stats)));
               Deliver (ArticlesReply 0 NetworkFail)]
              NetworkFail (Ok (Some sample_stats)) (Ok ["helse"; "politikk"])) as [H _].
  - apply Permutation_rev.
  - by rewrite H.
Defined.


(** ** What changes the filter and the statistics *)

Lemma step_keeps_category e w :
  is_category_change e = false →
  selectedCategory (st (step w e)) = selectedCategory (st w).
Proof.
  intros H. destruct e as [c|a].
  - by destruct c.
  - destruct a as [rid r|rid r|rid r|rid r]; unfold_goal; split_delivery; done.
Qed.

(** The selected category is written by [handleCategoryChange] only: no
    reply, no page change, no refresh and no mount effect changes it. *)
Theorem category_only_by_handler w evs :
  Forall (λ e, is_category_change e = false) evs →
  selectedCategory (st (run w evs)) = selectedCategory (st w).
Proof.
  revert w. induction evs as [|e evs IH]; intros w Hall; [done|].
  apply Forall_cons in Hall as [He Hall].
  change (run w (e :: evs)) with (run (step w e) evs).
  rewrite (IH _ Hall). by apply step_keeps_category.
Qed.

Lemma category_only_by_handler_witness :
  selectedCategory (st (run listed
    [Invoke (CallPageChange 2); Invoke CallRefresh;
     Deliver (ArticlesReply 3 (Ok (sample_body "annen" "politikk" 2 3)))]))
  = selectedCategory (st listed).
Proof.
  apply (category_only_by_handler listed
    [Invoke (CallPageChange 2); Invoke CallRefresh;
     Deliver (ArticlesReply 3 (Ok (sample_body "annen" "politikk" 2 3)))]).
  repeat constructor.
Defined.




(** A successful reply with a [null] body does clear them. *)
Lemma null_stats_body_clears w rid caller :
  pending w !! rid = Some (AwaitStats caller) →
  stats (st (deliver (StatsReply rid (Ok None)) w)) = None.
Proof. intros H. rewrite (deliver_stats _ _ _ _ H). by destruct caller. Qed.

(** ** What the view offers *)

(** A refresh can be started from the view exactly when none is running
    and either statistics are held or the listing is shown empty.  With no
    statistics and a listing that is loading or not empty, no refresh
    button is on the page. *)
Theorem refresh_offered_iff s :
  (∃ ctl, view_dispatch s ctl = Some CallRefresh)
  ↔ refreshing s = false
    ∧ (is_Some (stats s) ∨ (loading s = false ∧ articles s = [])).
Proof.
  split.
  - intros [ctl H]. destruct ctl; simpl in H; repeat case_match; simplify_eq.
    + split; [done|]. left. by eexists.
    + split; [done|]. right.
      match goal with Hc : _ && _ = true |- _ => apply andb_prop in Hc as [Hl Ha] end.
      apply negb_true_iff in Hl. split; [done|].
      unfold has_articles in Ha. by destruct (articles s).
  - intros [Hr [[x Hx]|[Hl Ha]]].
    + exists RefreshInStats. simpl. by rewrite Hx, Hr.
    + exists RefreshInEmptyList. simpl. unfold has_articles. by rewrite Hl, Ha, Hr.
Qed.

(** A page change is offered only on a loaded, non-empty listing of more
    than one page: "Forrige" except on page 1, "Neste" except on the last
    page.  With a page count up to 2^53 and a current page within the
    range, the page asked for is exactly the one before or the one after,
    and it is within the range. *)
Theorem page_buttons_in_range s ctl p :
  view_dispatch s ctl = Some (CallPageChange p) →
  loading s = false ∧ articles s ≠ [] ∧ (1 < totalPages s)%Z
  ∧ ((ctl = PrevPage ∧ currentPage s ≠ 1%Z)
     ∨ (ctl = NextPage ∧ currentPage s ≠ totalPages s))
  ∧ ((1 ≤ currentPage s ≤ totalPages s)%Z → (totalPages s ≤ 2 ^ 53)%Z →
     (ctl = PrevPage → p = (currentPage s - 1)%Z)
     ∧ (ctl = NextPage → p = (currentPage s + 1)%Z)
     ∧ (1 ≤ p ≤ totalPages s)%Z).
Proof.
  intros H.
  assert (Hshown : pagination_shown s = true →
            loading s = false ∧ articles s ≠ [] ∧ (1 < totalPages s)%Z).
  { unfold pagination_shown, has_articles. intros Hs.
    apply andb_prop in Hs as [Hs Ht]. apply andb_prop in Hs as [Hl Ha].
    apply negb_true_iff in Hl. apply Z.ltb_lt in Ht.
    split; [done|]. split; [|done]. by destruct (articles s). }
  destruct ctl; simpl in H; repeat case_match; simplify_eq;
    match goal with Hc : _ && _ = true |- _ => apply andb_prop in Hc as [Hs Hn] end;
    apply negb_true_iff, Z.eqb_neq in Hn;
    destruct (Hshown Hs) as (H1 & H2 & H3);
    (split; [done|]; split; [done|]; split; [done|]; split; [by (left + right)|]);
    intros Hr Ht; unfold num_sub, num_add; rewrite round53_exact by lia;
    (split; [done|]; split; [done|]; lia).
Qed.

Lemma page_buttons_in_range_witness :
  (1 ≤ 2 ≤ totalPages (st listed))%Z.
Proof.
  destruct (page_buttons_in_range (st listed) NextPage 2) as (_ & _ & _ & _ & H).
  - reflexivity.
  - apply H; vm_compute; by (split; discriminate) || discriminate.
Defined.

(** On page 2^53 "Neste" asks for page 2^53 again: the sum is rounded. *)
Lemma next_page_rounds s :
  pagination_shown s = true → currentPage s = (2 ^ 53)%Z →
  totalPages s ≠ (2 ^ 53)%Z →
  view_dispatch s NextPage = Some (CallPageChange (2 ^ 53)).
Proof.
  intros Hs Hc Ht. simpl. rewrite Hs, Hc.
  destruct (2 ^ 53 =? totalPages s)%Z eqn:E; [apply Z.eqb_eq in E; congruence|].
  reflexivity.
Qed.

(** ** Pages from 1 on *)

Lemma held_delete (m : gmap nat task) r :
  (∀ rid p c, m !! rid = Some (AwaitRefresh p c) → (1 ≤ p)%Z) →
  ∀ rid p c, delete r m !! rid = Some (AwaitRefresh p c) → (1 ≤ p)%Z.
Proof. intros H rid p c [_ H']%lookup_delete_Some. eauto. Qed.

Lemma held_insert (m : gmap nat task) n t :
  (∀ p c, t = AwaitRefresh p c → (1 ≤ p)%Z) →
  (∀ rid p c, m !! rid = Some (AwaitRefresh p c) → (1 ≤ p)%Z) →
  ∀ rid p c, <[n:=t]> m !! rid = Some (AwaitRefresh p c) → (1 ≤ p)%Z.
Proof. intros Ht H rid p c [[_ ->]|[_ H']]%lookup_insert_Some; eauto. Qed.

Lemma asks_snoc l e :
  Forall asks_page_from_one l → asks_page_from_one e →
  Forall asks_page_from_one (l ++ [e]).
Proof. intros. apply Forall_app. split; [done|]. by constructor. Qed.

Lemma page_floor_invoke h w :
  (∀ p, h = CallPageChange p → (1 ≤ p)%Z) →
  page_floor w → page_floor (invoke h w).
Proof.
  intros Hp [H1 H2 H3]. destruct h; unfold_goal.
  - split; cbn [st pending log]; [done| |].
    + repeat (apply held_insert; [done|]). done.
    + repeat apply asks_snoc; done.
  - split; cbn [st pending log]; [done| |].
    + by apply held_insert.
    + by apply asks_snoc.
  - specialize (Hp page eq_refl). split; cbn [st pending log]; [done| |].
    + by apply held_insert.
    + by apply asks_snoc.
  - split; cbn [st pending log]; [done| |].
    + apply held_insert; [|done]. by intros ? ? [= <- _].
    + by apply asks_snoc.
Qed.

Lemma page_floor_deliver a w :
  reports_page_from_one (Arrive a) →
  page_floor w → page_floor (deliver a w).
Proof.
  intros Hr [H1 H2 H3].
  destruct a as [rid r|rid r|rid r|rid r]; unfold_goal; split_delivery;
    try (by split);
    (split; cbn [st pending log];
     [ done
     | repeat first [ apply held_insert; [done|] | apply held_delete ]; done
     | repeat first [ apply asks_snoc; [|by (done || eapply H2)] | done ] ]).
Qed.

(** As long as the backend reports pages from 1 on, the view keeps the
    current page at 1 or more and never asks for a page below 1, through
    any sequence of clicks and replies on the mounted page. *)
Theorem view_keeps_pages_from_one evs :
  Forall reports_page_from_one evs →
  let w := ui_run mounted evs in
  (1 ≤ currentPage (st w))%Z ∧ Forall asks_page_from_one (log w).
Proof.
  intros Hall w.
  assert (H : ∀ w0, page_floor w0 → page_floor (ui_run w0 evs)).
  { induction evs as [|e evs IH]; intros w0 H0; [done|].
    apply Forall_cons in Hall as [He Hall].
    apply (IH Hall (ui_step w0 e)).
    destruct e as [c|a]; [|by apply page_floor_deliver].
    simpl. destruct (view_dispatch (st w0) c) as [h|] eqn:E; [|done].
    apply page_floor_invoke; [|done].
    intros p ->. eapply page_buttons_keep_floor; [|exact E]. by destruct H0. }
  destruct (H mounted) as [H1 _ H3]; [|done].
  split; [done| |by repeat constructor].
  intros rid p c Hl. unfold mounted in Hl. unfold_world.
  repeat (apply lookup_insert_Some in Hl as [[_ Hl]|[_ Hl]]; [done|]).
  cbn [blank pending] in Hl. by rewrite lookup_empty in Hl.
Qed.

Lemma view_keeps_pages_from_one_witness :
  (1 ≤ currentPage (st (ui_run mounted
     [Arrive (ArticlesReply 0 (Ok (sample_body "forste" "helse" 1 3)));
      Click NextPage; Click PrevPage])))%Z.
Proof.
  apply (view_keeps_pages_from_one
    [Arrive (ArticlesReply 0 (Ok (sample_body "forste" "helse" 1 3)));
     Click NextPage; Click PrevPage]).
  repeat constructor. vm_compute. discriminate.
Defined.

(** ** The children of the parent *)

Module CardProps.
Import Image.

(** Error events only ever add to the children of the parent: the ones
    there stay, in place, followed by at most one placeholder, built for
    the category of one of the events.  An image without parent gets
    none. *)
Theorem siblings_kept E cs d :
  match parent d with
  | None => parent (errors E cs d).1 = None
  | Some others =>
      ∃ extra, parent (errors E cs d).1 = Some (others ++ extra)
               ∧ (extra = [] ∨ ∃ c, c ∈ cs ∧ extra = [fallback_node E c])
  end.
Proof.
  revert d. induction cs as [|c cs IH]; intros d.
  { destruct (parent d) as [others|] eqn:P; cbn [errors fst]; rewrite P; [|done].
    exists []. rewrite app_nil_r. by split; [|left]. }
  cbn [errors fst].
  destruct (opt_truthy (fallbackAttempted (target d))) eqn:Ha.
  - destruct (ImageProps.settled_errors E cs _
                (ImageProps.later_error_settled E c d Ha)) as (-> & _).
    pose proof (ImageProps.later_error_appends E c d Ha) as L.
    destruct (parent d) as [others|]; [|by destruct L].
    destruct (querySelector _ _ others); destruct L as [-> _].
    + exists []. rewrite app_nil_r. by split; [|left].
    + exists [fallback_node E c]. split; [done|]. right. exists c.
      split; [apply list_elem_of_here | done].
  - specialize (IH (handleImageError E c d).1).
    rewrite (ImageProps.first_error E c d Ha) in IH |- *. cbn [fst parent] in IH |- *.
    destruct (parent d) as [others|]; [|done].
    destruct IH as (extra & -> & [->|(c' & Hc & ->)]).
    + exists []. by split; [|left].
    + exists [fallback_node E c']. split; [done|]. right. exists c'.
      split; [by apply list_elem_of_further | done].
Qed.

End CardProps.

(** ** What changes the listing *)



